(** * The expression filter of [expr2/exprfilter.cpp]

    A shallow embedding of the RPN expression compiler: tokenizer, token
    decoder, property-access resolver, the lowering of one loop iteration
    ([buildOneIter]), the row/column loop nest, the per-frame constants
    buffer and the plane bookkeeping of filter creation.

    The lowering is staged in the source: it runs once and builds code that
    later runs on every pixel.  The embedding keeps the two stages apart.
    What the C++ decides while lowering (the int/float tag of a stack slot,
    every thrown error) is a plain value here; what the emitted code
    computes is a function of the run-time state of one SIMD lane. *)

From Stdlib Require Import ZArith Lia Bool Ascii String.
From Stdlib Require Import SpecFloat.
From stdpp Require Import gmap strings list fin_maps.

Local Open Scope Z_scope.

(** ** 32-bit integers: an [int32_t] lane is a [Z] kept in the signed range *)

Definition wrap32 (z : Z) : Z := (z + 2 ^ 31) mod 2 ^ 32 - 2 ^ 31.
Definition u32 (z : Z) : Z := z mod 2 ^ 32.

Definition INT_MIN : Z := - 2 ^ 31.
Definition INT_MAX : Z := 2 ^ 31 - 1.

(** ** binary32 floats

    A [float] is carried as its 32-bit pattern, so that the reinterpreting
    casts of the source ([As<IntV>], the [ExprUnion] views) are the identity
    on the carrier.  Arithmetic decodes to [spec_float] with 24 bits of
    precision, computes there and encodes back.  NaN payloads are not
    tracked: every NaN encodes as the quiet NaN [0x7fc00000]. *)

Module F32.

Definition prec : Z := 24.
Definition emax : Z := 128.

Definition sign_bit (s : bool) : Z := if s then 2 ^ 31 else 0.

Definition of_bits (b : Z) : spec_float :=
  let s := Z.testbit b 31 in
  let e := Z.land (Z.shiftr b 23) 255 in
  let m := Z.land b (2 ^ 23 - 1) in
  if e =? 0 then
    match m with Zpos p => S754_finite s p (-149) | _ => S754_zero s end
  else if e =? 255 then
    (if m =? 0 then S754_infinity s else S754_nan)
  else
    match m + 2 ^ 23 with
    | Zpos p => S754_finite s p (e - 150)
    | _ => S754_nan
    end.

Definition to_bits (f : spec_float) : Z :=
  match f with
  | S754_zero s => sign_bit s
  | S754_infinity s => sign_bit s + 255 * 2 ^ 23
  | S754_nan => 255 * 2 ^ 23 + 2 ^ 22
  | S754_finite s m e =>
      if Zpos m <? 2 ^ 23 then sign_bit s + Zpos m
      else sign_bit s + (e + 150) * 2 ^ 23 + (Zpos m - 2 ^ 23)
  end.

Definition nan : Z := to_bits S754_nan.

Definition lift2 (op : spec_float -> spec_float -> spec_float) (a b : Z) : Z :=
  to_bits (op (of_bits a) (of_bits b)).

Definition add : Z -> Z -> Z := lift2 (SFadd prec emax).
Definition sub : Z -> Z -> Z := lift2 (SFsub prec emax).
Definition mul : Z -> Z -> Z := lift2 (SFmul prec emax).
Definition div : Z -> Z -> Z := lift2 (SFdiv prec emax).
Definition sqrt (a : Z) : Z := to_bits (SFsqrt prec emax (of_bits a)).
Definition abs (a : Z) : Z := to_bits (SFabs (of_bits a)).

(** Ordered comparisons: false as soon as one side is a NaN. *)
Definition eqb (a b : Z) : bool := SFeqb (of_bits a) (of_bits b).
Definition ltb (a b : Z) : bool := SFltb (of_bits a) (of_bits b).
Definition leb (a b : Z) : bool := SFleb (of_bits a) (of_bits b).

(** Conversion of an integer of any width, round to nearest even. *)
Definition of_Z (z : Z) : Z := to_bits (binary_normalize prec emax z 0 false).

(** Integer part and remainder of the magnitude [m * 2^e]. *)
Definition split (m : positive) (e : Z) : Z * Z * Z :=
  if 0 <=? e then (Zpos m * 2 ^ e, 0, 1)
  else (Zpos m / 2 ^ (- e), Zpos m mod 2 ^ (- e), 2 ^ (- e)).

Definition mag_trunc (m : positive) (e : Z) : Z :=
  let '(q, _, _) := split m e in q.

Definition mag_floor (s : bool) (m : positive) (e : Z) : Z :=
  let '(q, r, _) := split m e in
  if s then - (if r =? 0 then q else q + 1) else q.

Definition mag_nearest_even (m : positive) (e : Z) : Z :=
  let '(q, r, d) := split m e in
  match 2 * r ?= d with
  | Lt => q
  | Gt => q + 1
  | Eq => if Z.even q then q else q + 1
  end.

Definition signed (s : bool) (z : Z) : Z := if s then - z else z.

(** [None] for NaN and the infinities. *)
Definition to_Z_trunc (a : Z) : option Z :=
  match of_bits a with
  | S754_zero _ => Some 0
  | S754_finite s m e => Some (signed s (mag_trunc m e))
  | _ => None
  end.

Definition to_Z_nearest (a : Z) : option Z :=
  match of_bits a with
  | S754_zero _ => Some 0
  | S754_finite s m e => Some (signed s (mag_nearest_even m e))
  | _ => None
  end.

(** Float-to-int32 with the x86 out-of-range result [0x80000000]. *)
Definition int_or_indefinite (o : option Z) : Z :=
  match o with
  | Some z => if (INT_MIN <=? z) && (z <=? INT_MAX) then z else INT_MIN
  | None => INT_MIN
  end.

(** Rounding to an integral float keeps the sign, also of a zero result. *)
Definition integral (f : bool -> positive -> Z -> Z) (a : Z) : Z :=
  match of_bits a with
  | S754_finite s m e => to_bits (binary_normalize prec emax (f s m e) 0 s)
  | _ => a
  end.

Definition trunc : Z -> Z := integral (fun s m e => signed s (mag_trunc m e)).
Definition round : Z -> Z := integral (fun s m e => signed s (mag_nearest_even m e)).
Definition floor : Z -> Z := integral mag_floor.

(** [frem]: the exact remainder of the truncated quotient, sign of [a]. *)
Definition rem (a b : Z) : Z :=
  match of_bits a, of_bits b with
  | S754_nan, _ | _, S754_nan => nan
  | S754_infinity _, _ => nan
  | _, S754_zero _ => nan
  | _, S754_infinity _ => a
  | S754_zero _, _ => a
  | S754_finite sx mx ex, S754_finite _ my ey =>
      let e0 := Z.min ex ey in
      let X := Zpos mx * 2 ^ (ex - e0) in
      let Y := Zpos my * 2 ^ (ey - e0) in
      to_bits (binary_normalize prec emax (signed sx (X mod Y)) e0 sx)
  end.

End F32.

(** The C++ casts of the [CONSTANT] case: [(int)f] truncates (the hardware
    result for a value outside [int] is [INT_MIN]) and [(float)i] rounds. *)
Definition cast_int (f : Z) : Z := F32.int_or_indefinite (F32.to_Z_trunc f).
Definition cast_float (i : Z) : Z := F32.of_Z i.

Definition f32_zero : Z := 0.
Definition f32_one : Z := Eval vm_compute in F32.of_Z 1.

(** ** Strings and characters *)

Definition code (c : ascii) : Z := Z.of_nat (nat_of_ascii c).

Definition chars (s : string) : list ascii := list_ascii_of_string s.
Definition str (l : list ascii) : string := string_of_list_ascii l.

(** [std::isspace] in the "C" locale. *)
Definition isspace (c : ascii) : bool :=
  (code c =? 32) || ((9 <=? code c) && (code c <=? 13)).

Definition isdigit (c : ascii) : bool := (48 <=? code c) && (code c <=? 57).
Definition is_lower (c : ascii) : bool := (97 <=? code c) && (code c <=? 122).

(** ** Outcomes of the C++ code

    [Throw] is a [std::runtime_error] with its message, the only exception
    [exprCreate] catches.  [BadVariantAccess] is the exception of [std::get]
    on the wrong alternative of a [std::variant]; [Aborted] is a call of
    [abort()]; [UninitRead] is the use of a local Reactor variable that was
    declared and never assigned; [NullDeref] is a read through a null or
    out-of-bounds pointer. *)

Inductive Outcome (A : Type) : Type :=
  | Ok (a : A)
  | Throw (msg : string)
  | BadVariantAccess
  | Aborted
  | UninitRead
  | NullDeref.

Arguments Ok {A} a.
Arguments Throw {A} msg.
Arguments BadVariantAccess {A}.
Arguments Aborted {A}.
Arguments UninitRead {A}.
Arguments NullDeref {A}.

#[global] Instance Outcome_bind : MBind Outcome := fun A B k m =>
  match m with
  | Ok a => k a
  | Throw msg => Throw msg
  | BadVariantAccess => BadVariantAccess
  | Aborted => Aborted
  | UninitRead => UninitRead
  | NullDeref => NullDeref
  end.

#[global] Instance Outcome_ret : MRet Outcome := fun A a => Ok a.

(** ** The data model *)

Inductive ExprOpType : Type :=
  | MEM_LOAD | CONSTANT | LOAD_CONST
  | ADD | SUB | MUL | DIV | MOD | SQRT | ABS | MAX | MIN | CMP
  | TRUNC | ROUND | FLOOR
  | AND | OR | XOR | NOT
  | EXP | LOG | POW | SIN | COS
  | TERNARY
  | DUP | SWAP.

#[global] Instance ExprOpType_eq_dec : EqDecision ExprOpType.
Proof. solve_decision. Defined.

Module ComparisonType.
Definition EQ : Z := 0.
Definition LT : Z := 1.
Definition LE : Z := 2.
Definition NEQ : Z := 4.
Definition NLT : Z := 5.
Definition NLE : Z := 6.
End ComparisonType.

Module LoadConstType.
Definition N : Z := 0.
Definition X : Z := 1.
Definition Y : Z := 2.
Definition LAST : Z := 3.
End LoadConstType.

Module LoadConstIndex.
Definition N : Z := 0.
Definition LAST : Z := 1.
End LoadConstIndex.

(** [imm] is the 32-bit payload of the [ExprUnion], kept as the unsigned
    pattern; [imm_i], [imm_u] and [imm_f] are its three views. *)
Record ExprOp : Type := mkOp {
  type : ExprOpType;
  imm : Z;
  name : string;
}.

#[global] Instance ExprOp_eq_dec : EqDecision ExprOp.
Proof. solve_decision. Defined.

Definition imm_u (op : ExprOp) : Z := imm op.
Definition imm_i (op : ExprOp) : Z := wrap32 (imm op).
Definition imm_f (op : ExprOp) : Z := imm op.

Definition op0 (t : ExprOpType) : ExprOp := mkOp t 0 "".
Definition opi (t : ExprOpType) (i : Z) : ExprOp := mkOp t (u32 i) "".
Definition opf (t : ExprOpType) (f : Z) : ExprOp := mkOp t f "".

Inductive PlaneOp : Type := poProcess | poCopy | poUndefined.

Record PropAccess : Type := mkPA {
  clip : Z;
  pa_name : string;
}.

#[global] Instance PropAccess_eq_dec : EqDecision PropAccess.
Proof. solve_decision. Defined.

Definition MAX_EXPR_INPUTS : Z := 26.
Definition LANES : Z := 8.
Definition UNROLL : Z := 1.

(** ** [tokenize]

    [cur] holds the characters between [prev] and [it], most recent first. *)

Fixpoint tokenize_from (cur : list ascii) (s : list ascii) : list string :=
  match s with
  | [] => match cur with [] => [] | _ => [str (rev cur)] end
  | c :: s' =>
      if isspace c then
        match cur with
        | [] => tokenize_from [] s'
        | _ => str (rev cur) :: tokenize_from [] s'
        end
      else tokenize_from (c :: cur) s'
  end.

Definition tokenize (expr : string) : list string := tokenize_from [] (chars expr).

(** ** Number parsing used by [decodeToken] *)

Fixpoint span_digits (l : list ascii) : list ascii * list ascii :=
  match l with
  | c :: l' =>
      if isdigit c then let '(d, r) := span_digits l' in (c :: d, r)
      else ([], l)
  | [] => ([], [])
  end.

Definition digits_value (d : list ascii) : Z :=
  fold_left (fun acc c => 10 * acc + (code c - 48)) d 0.

Fixpoint skip_spaces (l : list ascii) : nat * list ascii :=
  match l with
  | c :: l' =>
      if isspace c then let '(n, r) := skip_spaces l' in (S n, r) else (O, l)
  | [] => (O, [])
  end.

(** An optional ['+'] or ['-']: the sign is [true] for minus. *)
Definition take_sign (l : list ascii) : bool * nat * list ascii :=
  match l with
  | c :: l' =>
      if code c =? 45 then (true, 1%nat, l')
      else if code c =? 43 then (false, 1%nat, l')
      else (false, O, l)
  | [] => (false, O, [])
  end.

(** [std::stoi (s, &count)]: the value and the number of characters used, or
    [None] where it throws [invalid_argument] or [out_of_range]. *)
Definition stoi (s : list ascii) : option (Z * nat) :=
  let '(nws, s1) := skip_spaces s in
  let '(neg, nsign, s2) := take_sign s1 in
  let '(d, _) := span_digits s2 in
  match d with
  | [] => None
  | _ =>
      let v := F32.signed neg (digits_value d) in
      if (INT_MIN <=? v) && (v <=? INT_MAX)
      then Some (v, (nws + nsign + length d)%nat)
      else None
  end.

(** The decimal value [m * 10^e10], correctly rounded to binary32. *)
Definition decimal_to_float (neg : bool) (m e10 : Z) : spec_float :=
  if m =? 0 then S754_zero neg
  else if 0 <=? e10 then
    binary_normalize F32.prec F32.emax (F32.signed neg (m * 10 ^ e10)) 0 neg
  else
    let '(mz, ez, lz) :=
      SFdiv_core_binary F32.prec F32.emax m 0 (10 ^ (- e10)) 0 in
    binary_round_aux F32.prec F32.emax neg mz ez lz.

Definition is_e (c : ascii) : bool := (code c =? 101) || (code c =? 69).
Definition is_dot (c : ascii) : bool := code c =? 46.

(** The exponent part after the mantissa: [Some (e, rest)], with [e = 0] when
    there is no exponent marker, and [None] when the marker is followed by no
    digit (the stream has then consumed it and the conversion fails). *)
Definition scan_exponent (l : list ascii) : option (Z * list ascii) :=
  match l with
  | c :: l' =>
      if is_e c then
        let '(neg, _, l2) := take_sign l' in
        let '(d, r) := span_digits l2 in
        match d with
        | [] => None
        | _ => Some (F32.signed neg (digits_value d), r)
        end
      else Some (0, l)
  | [] => Some (0, [])
  end.

(** [numStream >> f] in the classic locale on a token without white space:
    the float read and the unread rest, or [None] when the failbit is set
    (no digit in the mantissa, an exponent marker without digits, or a value
    that overflows to an infinity). *)
Definition read_float (s : list ascii) : option (Z * list ascii) :=
  let '(neg, _, s1) := take_sign s in
  let '(ip, s2) := span_digits s1 in
  let '(fp, s3) :=
    match s2 with
    | c :: s2' => if is_dot c then span_digits s2' else ([], s2)
    | [] => ([], [])
    end in
  match ip ++ fp with
  | [] => None
  | mant =>
      match scan_exponent s3 with
      | None => None
      | Some (e, rest) =>
          match decimal_to_float neg (digits_value mant) (e - Z.of_nat (length fp)) with
          | S754_infinity _ => None
          | f => Some (F32.to_bits f, rest)
          end
      end
  end.

(** ** [decodeToken] *)

(** [static_cast<float>(M_PI)] *)
Definition M_PI_f : Z := 0x40490fdb.

Definition simple : list (string * ExprOp) :=
  [ ("+", op0 ADD); ("-", op0 SUB); ("*", op0 MUL); ("/", op0 DIV);
    ("%", op0 MOD); ("sqrt", op0 SQRT); ("abs", op0 ABS); ("max", op0 MAX);
    ("min", op0 MIN);
    ("<", opi CMP ComparisonType.LT); (">", opi CMP ComparisonType.NLE);
    ("=", opi CMP ComparisonType.EQ); (">=", opi CMP ComparisonType.NLT);
    ("<=", opi CMP ComparisonType.LE);
    ("trunc", op0 TRUNC); ("round", op0 ROUND); ("floor", op0 FLOOR);
    ("and", op0 AND); ("or", op0 OR); ("xor", op0 XOR); ("not", op0 NOT);
    ("?", op0 TERNARY);
    ("exp", op0 EXP); ("log", op0 LOG); ("pow", op0 POW); ("sin", op0 SIN);
    ("cos", op0 COS);
    ("dup", opi DUP 0); ("swap", opi SWAP 1);
    ("pi", opf CONSTANT M_PI_f);
    ("N", opi LOAD_CONST LoadConstType.N);
    ("X", opi LOAD_CONST LoadConstType.X);
    ("Y", opi LOAD_CONST LoadConstType.Y) ]%string.

Fixpoint find_simple (token : string) (tbl : list (string * ExprOp)) : option ExprOp :=
  match tbl with
  | (k, op) :: tbl' => if String.eqb k token then Some op else find_simple token tbl'
  | [] => None
  end.

(** [token[0] >= 'x' ? token[0] - 'x' : token[0] - 'a' + 3] *)
Definition clip_of_letter (c : ascii) : Z :=
  if 120 <=? code c then code c - 120 else code c - 97 + 3.

Definition char0 : ascii := ascii_of_nat 0.

Definition decodeToken (token : string) : Outcome ExprOp :=
  let t := chars token in
  let t0 := nth 0 t char0 in
  match find_simple token simple with
  | Some op => Ok op
  | None =>
      if (length t =? 1)%nat && is_lower t0 then
        Ok (opi MEM_LOAD (clip_of_letter t0))
      else if String.eqb (str (take 3 t)) "dup" || String.eqb (str (take 4 t)) "swap" then
        let prefix := if code t0 =? 100 then 3%nat else 4%nat in
        let '(idx, count) :=
          match stoi (drop prefix t) with
          | Some (i, n) => (i, n)
          | None => (-1, O)
          end in
        if (idx <? 0) || negb (prefix + count =? length t)%nat then
          Throw ("illegal token: " +:+ token)
        else Ok (opi (if code t0 =? 100 then DUP else SWAP) idx)
      else if (3 <=? length t)%nat && is_lower t0 && is_dot (nth 1 t char0) then
        Ok (mkOp LOAD_CONST (u32 (LoadConstType.LAST + clip_of_letter t0)) (str (drop 2 t)))
      else
        match read_float t with
        | None => Throw ("failed to convert '" +:+ token +:+ "' to float")
        | Some (f, rest) =>
            match rest with
            | [] => Ok (opf CONSTANT f)
            | _ => Throw ("failed to convert '" +:+ token +:+
                          "' to float, not the whole token could be converted")
            end
        end
  end.

(** ** Host formats and the compilation context *)

Inductive VSSampleType : Type := stInteger | stFloat.

#[global] Instance VSSampleType_eq_dec : EqDecision VSSampleType.
Proof. solve_decision. Defined.

Inductive VSColorFamily : Type := cmGray | cmRGB | cmYUV | cmYCoCg | cmCompat.

#[global] Instance VSColorFamily_eq_dec : EqDecision VSColorFamily.
Proof. solve_decision. Defined.

Record VSFormat : Type := mkFormat {
  colorFamily : VSColorFamily;
  sampleType : VSSampleType;
  bitsPerSample : Z;
  bytesPerSample : Z;
  subSamplingW : Z;
  subSamplingH : Z;
  numPlanes : Z;
}.

(** [format] is [None] for the null pointer of a variable-format clip. *)
Record VSVideoInfo : Type := mkVideoInfo {
  format : option VSFormat;
  width : Z;
  height : Z;
}.

Record Context : Type := mkContext {
  expr : string;
  tokens : list string;
  ops : list ExprOp;
  vo : VSVideoInfo;
  vi : list VSVideoInfo;
  numInputs : Z;
  optMask : Z;
}.

Definition flagUseInteger : Z := Z.shiftl 1 0.

Definition forceFloat (ctx : Context) : bool :=
  Z.land (optMask ctx) flagUseInteger =? 0.

Fixpoint decodeTokens (toks : list string) : Outcome (list ExprOp) :=
  match toks with
  | [] => Ok []
  | tok :: toks' =>
      op ← decodeToken tok;
      rest ← decodeTokens toks';
      Ok (op :: rest)
  end.

(** The constructor of [Context]: tokenizes and decodes. *)
Definition newContext (e : string) (o : VSVideoInfo) (i : list VSVideoInfo)
    (n opt : Z) : Outcome Context :=
  let toks := tokenize e in
  os ← decodeTokens toks;
  Ok (mkContext e toks os o i n opt).

(** ** Run-time state of one lane and compile-time values

    [wptrs k c r] is the sample stored at column [c], row [r] of the plane
    behind pointer [k] (0 is the output, [i + 1] is input [i]); [consts] is
    the constants buffer as 32-bit words; [xvec] is the ramp vector and
    [lane] the position of this lane in every vector. *)

Record State : Type := mkState {
  wptrs : Z -> Z -> Z -> Z;
  consts : list Z;
  xvec : Z -> Z;
  y : Z;
  x : Z;
  lane : Z;
}.

Definition IntV : Type := State -> Z.
Definition FloatV : Type := State -> Z.

Inductive Vec : Type :=
  | VInt (i : IntV)
  | VFloat (f : FloatV).

Record Value : Type := mkValue {
  v : Vec;
  constant : bool;
}.

Definition isFloat (a : Value) : bool :=
  match v a with VFloat _ => true | VInt _ => false end.
Definition isConst (a : Value) : bool := constant a.

Definition Value_int (n : Z) : Value := mkValue (VInt (fun _ => n)) true.
Definition Value_float (f : Z) : Value := mkValue (VFloat (fun _ => f)) true.
Definition Value_IntV (i : IntV) : Value := mkValue (VInt i) false.
Definition Value_FloatV (f : FloatV) : Value := mkValue (VFloat f) false.

(** [std::get] on the alternative the variant does not hold throws. *)
Definition Value_f (a : Value) : Outcome FloatV :=
  match v a with VFloat f => Ok f | VInt _ => BadVariantAccess end.
Definition Value_i (a : Value) : Outcome IntV :=
  match v a with VInt i => Ok i | VFloat _ => BadVariantAccess end.

(** Lane-wise primitives of the code generator. *)
Definition map1 (f : Z -> Z) (a : State -> Z) : State -> Z := fun st => f (a st).
Definition map2 (f : Z -> Z -> Z) (a b : State -> Z) : State -> Z :=
  fun st => f (a st) (b st).

Definition mask (b : bool) : Z := if b then -1 else 0.

Definition IntToFloat : IntV -> FloatV := map1 F32.of_Z.
Definition AsInt : FloatV -> IntV := map1 wrap32.
Definition AsFloat : IntV -> FloatV := map1 u32.

Definition ensureFloat (a : Value) : FloatV :=
  match v a with VFloat f => f | VInt i => IntToFloat i end.

Definition iadd (a b : Z) : Z := wrap32 (a + b).
Definition isub (a b : Z) : Z := wrap32 (a - b).
Definition imul (a b : Z) : Z := wrap32 (a * b).
Definition idiv (a b : Z) : Z := wrap32 (Z.quot a b).
Definition irem (a b : Z) : Z := wrap32 (Z.rem a b).
Definition iabs (a : Z) : Z := wrap32 (Z.abs a).

(** Float [Max] and [Min] select the first operand only where the ordered
    comparison holds, so a NaN on either side yields the second one. *)
Definition fmax (a b : Z) : Z := if F32.ltb b a then a else b.
Definition fmin (a b : Z) : Z := if F32.ltb a b then a else b.

(** [RoundInt]: nearest even, [0x80000000] when out of range. *)
Definition RoundInt (a : Z) : Z := F32.int_or_indefinite (F32.to_Z_nearest a).

(** The comparison selected by the immediate of a [CMP]; [None] for a
    code outside the enumeration, where the [switch] assigns nothing. *)
Inductive ComparisonKind : Type := cEQ | cLT | cLE | cNEQ | cNLT | cNLE.

Definition comparisonOf (c : Z) : option ComparisonKind :=
  if c =? ComparisonType.EQ then Some cEQ
  else if c =? ComparisonType.LT then Some cLT
  else if c =? ComparisonType.LE then Some cLE
  else if c =? ComparisonType.NEQ then Some cNEQ
  else if c =? ComparisonType.NLT then Some cNLT
  else if c =? ComparisonType.NLE then Some cNLE
  else None.

Definition icmp (k : ComparisonKind) (a b : Z) : Z :=
  mask match k with
       | cEQ => a =? b
       | cLT => a <? b
       | cLE => a <=? b
       | cNEQ => negb (a =? b)
       | cNLT => b <=? a
       | cNLE => b <? a
       end.

Definition fcmp (k : ComparisonKind) (a b : Z) : Z :=
  mask match k with
       | cEQ => F32.eqb a b
       | cLT => F32.ltb a b
       | cLE => F32.leb a b
       | cNEQ => F32.ltb a b || F32.ltb b a
       | cNLT => F32.leb b a
       | cNLE => F32.ltb b a
       end.

Definition CmpGT_f0 (a : FloatV) : IntV := fun st => mask (F32.ltb f32_zero (a st)).
Definition CmpGT_i0 (a : IntV) : IntV := fun st => mask (0 <? a st).
Definition CmpLE_f0 (a : FloatV) : IntV := fun st => mask (F32.leb (a st) f32_zero).
Definition CmpLE_i0 (a : IntV) : IntV := fun st => mask (a st <=? 0).

(** The math helpers are module functions handed to [buildOneIter]; the
    code generator also supplies [BuiltinPow] and the [IsConstant] query. *)
Record Helper : Type := mkHelper {
  Exp : Z -> Z;
  Log : Z -> Z;
  Sin : Z -> Z;
  Cos : Z -> Z;
  Pow : Z -> Z -> Z;
}.

Record Reactor : Type := mkReactor {
  BuiltinPow : Z -> Z -> Z;
  IsConstant : IntV -> bool;
}.

(** ** [buildOneIter]: lowering one iteration of the expression body *)

Definition numOperands (t : ExprOpType) : nat :=
  match t with
  | MEM_LOAD | CONSTANT | LOAD_CONST => 0
  | ADD | SUB | MUL | DIV | MOD => 2
  | SQRT | ABS => 1
  | MAX | MIN | CMP => 2
  | TRUNC | ROUND | FLOOR => 1
  | AND | OR | XOR => 2
  | NOT => 1
  | EXP | LOG => 1
  | POW => 2
  | SIN | COS => 1
  | TERNARY => 3
  | DUP | SWAP => 0
  end.

(** The value stack is a [std::vector]: the top is the last element. *)
Definition OUT (a : Value) (stack : list Value) : list Value := stack ++ [a].

(** [stack.size() - 1 - n] *)
Definition fromTop (stack : list Value) (n : Z) : nat :=
  (length stack - 1 - Z.to_nat n)%nat.

Definition LOAD1 (stack : list Value) : Outcome (Value * list Value) :=
  match last stack with
  | Some a => Ok (a, take (length stack - 1) stack)
  | None => NullDeref
  end.

Definition LOAD2 (stack : list Value) : Outcome (Value * Value * list Value) :=
  '(r, stack) ← LOAD1 stack;
  '(l, stack) ← LOAD1 stack;
  Ok (l, r, stack).

(** The result of a [MEM_LOAD]: which vector is pushed for a clip format. *)
Definition load_sample (i : Z) (bytes : Z) : State -> Z :=
  fun st => wptrs st (i + 1) (x st + lane st) (y st) mod 2 ^ (8 * bytes).

Definition lowerMemLoad (ff : bool) (i : Z) (fmt : VSFormat)
    (stack : list Value) : Outcome (list Value) :=
  match sampleType fmt with
  | stInteger =>
      xv ← (if bytesPerSample fmt =? 1 then Ok (load_sample i 1)
            else if bytesPerSample fmt =? 2 then Ok (load_sample i 2)
            else UninitRead);
      if ff then Ok (OUT (Value_FloatV (IntToFloat xv)) stack)
      else Ok (OUT (Value_IntV xv) stack)
  | stFloat =>
      xv ← (if bytesPerSample fmt =? 2 then Aborted
            else if bytesPerSample fmt =? 4 then Ok (load_sample i 4)
            else UninitRead);
      Ok (OUT (Value_FloatV xv) stack)
  end.

Definition word (st : State) (k : Z) : Z :=
  if k <? 0 then 0 else default 0 (consts st !! Z.to_nat k).

Definition lowerLoadConst (op : ExprOp) (stack : list Value) : list Value :=
  if imm_i op =? LoadConstType.N then
    OUT (Value_IntV (fun st => wrap32 (word st LoadConstIndex.N))) stack
  else if imm_i op =? LoadConstType.Y then
    OUT (Value_IntV y) stack
  else if imm_i op =? LoadConstType.X then
    OUT (Value_IntV (fun st => iadd (xvec st (lane st)) (x st))) stack
  else
    let bias := LoadConstIndex.LAST - LoadConstType.LAST in
    OUT (Value_FloatV (fun st => word st (imm_i op + bias))) stack.

Definition BINARYOP (opf opi : Z -> Z -> Z) (ff : bool)
    (stack : list Value) : Outcome (list Value) :=
  '(l, r, stack) ← LOAD2 stack;
  match v l, v r with
  | VFloat lf, VFloat rf => Ok (OUT (Value_FloatV (map2 opf lf rf)) stack)
  | VFloat lf, VInt ri => Ok (OUT (Value_FloatV (map2 opf lf (IntToFloat ri))) stack)
  | VInt li, VFloat rf => Ok (OUT (Value_FloatV (map2 opf (IntToFloat li) rf)) stack)
  | VInt li, VInt ri =>
      if ff then Ok (OUT (Value_FloatV (map2 opf (IntToFloat li) (IntToFloat ri))) stack)
      else Ok (OUT (Value_IntV (map2 opi li ri)) stack)
  end.

Definition UNARYOP (opf opi : Z -> Z) (ff : bool)
    (stack : list Value) : Outcome (list Value) :=
  '(a, stack) ← LOAD1 stack;
  match v a with
  | VFloat af => Ok (OUT (Value_FloatV (map1 opf af)) stack)
  | VInt ai =>
      if ff then Ok (OUT (Value_FloatV (map1 opf (IntToFloat ai))) stack)
      else Ok (OUT (Value_IntV (map1 opi ai)) stack)
  end.

Definition UNARYOPF (opf : Z -> Z) (stack : list Value) : Outcome (list Value) :=
  '(a, stack) ← LOAD1 stack;
  Ok (OUT (Value_FloatV (map1 opf (ensureFloat a))) stack).

(** Both masks are selected by [l.isFloat()], as the macro is written. *)
Definition LOGICOP (op : Z -> Z -> Z) (stack : list Value) : Outcome (list Value) :=
  '(l, r, stack) ← LOAD2 stack;
  li ← (if isFloat l then f ← Value_f l; Ok (CmpGT_f0 f)
        else i ← Value_i l; Ok (CmpGT_i0 i));
  ri ← (if isFloat l then f ← Value_f r; Ok (CmpGT_f0 f)
        else i ← Value_i r; Ok (CmpGT_i0 i));
  Ok (OUT (Value_IntV (fun st => Z.land (op (li st) (ri st)) 1)) stack).

Definition lowerCmp (op : ExprOp) (stack : list Value) : Outcome (list Value) :=
  '(l, r, stack) ← LOAD2 stack;
  xv ← (if isFloat l || isFloat r then
          let lf := ensureFloat l in
          let rf := ensureFloat r in
          match comparisonOf (imm_u op) with
          | Some k => Ok (map2 (fcmp k) lf rf)
          | None => UninitRead
          end
        else
          li ← Value_i l;
          ri ← Value_i r;
          match comparisonOf (imm_u op) with
          | Some k => Ok (map2 (icmp k) li ri)
          | None => UninitRead
          end);
  Ok (OUT (Value_IntV (fun st => Z.land (xv st) 1)) stack).

Definition lowerNot (stack : list Value) : Outcome (list Value) :=
  '(a, stack) ← LOAD1 stack;
  let xi := match v a with VFloat f => CmpLE_f0 f | VInt i => CmpLE_i0 i end in
  Ok (OUT (Value_IntV (fun st => Z.land (xi st) 1)) stack).

Definition select (t f ci : Z) : Z := Z.lor (Z.land t ci) (Z.land f (Z.lnot ci)).

Definition lowerTernary (stack : list Value) : Outcome (list Value) :=
  '(t, f, stack) ← LOAD2 stack;
  '(c, stack) ← LOAD1 stack;
  let ci := match v c with VFloat cf => CmpGT_f0 cf | VInt i => CmpGT_i0 i end in
  if isFloat t || isFloat f then
    let tf := ensureFloat t in
    let ff := ensureFloat f in
    Ok (OUT (Value_FloatV (fun st =>
          u32 (select (wrap32 (tf st)) (wrap32 (ff st)) (ci st)))) stack)
  else
    ti ← Value_i t;
    fi ← Value_i f;
    Ok (OUT (Value_IntV (fun st => select (ti st) (fi st) (ci st))) stack).

Section Lowering.

Variable helpers : Helper.
Variable rr : Reactor.

Definition lowerPow (stack : list Value) : Outcome (list Value) :=
  '(l, r, stack) ← LOAD2 stack;
  match v r with
  | VInt ri =>
      if IsConstant rr ri
      then Ok (OUT (Value_FloatV
                 (map2 (BuiltinPow rr) (ensureFloat l) (IntToFloat ri))) stack)
      else Ok (OUT (Value_FloatV
                 (map2 (Pow helpers) (ensureFloat l) (ensureFloat r))) stack)
  | VFloat _ =>
      Ok (OUT (Value_FloatV
            (map2 (Pow helpers) (ensureFloat l) (ensureFloat r))) stack)
  end.

(** The body of the [for] loop over the ops: the three validity checks,
    then the [switch]. *)
Definition lowerOp (ctx : Context) (tok : string) (op : ExprOp)
    (stack : list Value) : Outcome (list Value) :=
  if bool_decide (type op = MEM_LOAD) && (numInputs ctx <=? imm_i op) then
    Throw ("reference to undefined clip: " +:+ tok)
  else if (bool_decide (type op = DUP) || bool_decide (type op = SWAP))
          && (Z.of_nat (length stack) <=? imm_u op) then
    Throw ("insufficient values on stack: " +:+ tok)
  else if (length stack <? numOperands (type op))%nat then
    Throw ("insufficient values on stack: " +:+ tok)
  else
    match type op with
    | DUP =>
        match stack !! fromTop stack (imm_u op) with
        | Some a => Ok (OUT a stack)
        | None => NullDeref
        end
    | SWAP =>
        match stack !! fromTop stack 0, stack !! fromTop stack (imm_u op) with
        | Some a, Some b =>
            Ok (<[fromTop stack (imm_u op) := a]> (<[fromTop stack 0 := b]> stack))
        | _, _ => NullDeref
        end
    | MEM_LOAD =>
        if imm_i op <? 0 then NullDeref
        else
          match vi ctx !! Z.to_nat (imm_i op) with
          | Some info =>
              match format info with
              | Some fmt => lowerMemLoad (forceFloat ctx) (imm_i op) fmt stack
              | None => NullDeref
              end
          | None => NullDeref
          end
    | CONSTANT =>
        if F32.eqb (imm_f op) (cast_float (cast_int (imm_f op)))
        then Ok (OUT (Value_int (cast_int (imm_f op))) stack)
        else Ok (OUT (Value_float (imm_f op)) stack)
    | LOAD_CONST => Ok (lowerLoadConst op stack)
    | ADD => BINARYOP F32.add iadd false stack
    | SUB => BINARYOP F32.sub isub false stack
    | MUL => BINARYOP F32.mul imul false stack
    | DIV => BINARYOP F32.div idiv true stack
    | MOD => BINARYOP F32.rem irem true stack
    | SQRT => UNARYOPF (fun a => F32.sqrt (fmax a f32_zero)) stack
    | ABS => UNARYOP F32.abs iabs (forceFloat ctx) stack
    | MAX => BINARYOP fmax Z.max (forceFloat ctx) stack
    | MIN => BINARYOP fmin Z.min (forceFloat ctx) stack
    | CMP => lowerCmp op stack
    | AND => LOGICOP Z.land stack
    | OR => LOGICOP Z.lor stack
    | XOR => LOGICOP Z.lxor stack
    | NOT => lowerNot stack
    | TRUNC => UNARYOPF F32.trunc stack
    | ROUND => UNARYOPF F32.round stack
    | FLOOR => UNARYOPF F32.floor stack
    | EXP => UNARYOPF (Exp helpers) stack
    | LOG => UNARYOPF (Log helpers) stack
    | POW => lowerPow stack
    | SIN => UNARYOPF (Sin helpers) stack
    | COS => UNARYOPF (Cos helpers) stack
    | TERNARY => lowerTernary stack
    end.

Fixpoint lowerOps (ctx : Context) (toks : list string) (os : list ExprOp)
    (stack : list Value) : Outcome (list Value) :=
  match os with
  | [] => Ok stack
  | op :: os' =>
      stack' ← lowerOp ctx (hd ""%string toks) op stack;
      lowerOps ctx (tl toks) os' stack'
  end.

(** The store of the residual value; [None] where no store is emitted. *)
Definition lowerStore (fmt : VSFormat) (res : Value) : Outcome (option (State -> Z)) :=
  match sampleType fmt with
  | stInteger =>
      let maxval := wrap32 (wrap32 (Z.shiftl 1 (bitsPerSample fmt)) - 1) in
      let rounded : IntV :=
        match v res with
        | VFloat rf =>
            fun st => RoundInt (fmin (fmax (rf st) (cast_float 0)) (cast_float maxval))
        | VInt ri => fun st => Z.min (Z.max (ri st) 0) maxval
        end in
      if bytesPerSample fmt =? 1 then
        Ok (Some (fun st => (rounded st mod 2 ^ 16) mod 2 ^ 8))
      else if bytesPerSample fmt =? 2 then
        Ok (Some (fun st => rounded st mod 2 ^ 16))
      else Ok None
  | stFloat =>
      if bytesPerSample fmt =? 2 then Aborted
      else if bytesPerSample fmt =? 4 then Ok (Some (ensureFloat res))
      else Ok None
  end.

Definition buildOneIter (ctx : Context) : Outcome (option (State -> Z)) :=
  stack ← lowerOps ctx (tokens ctx) (ops ctx) [];
  match stack with
  | [] => Throw ("empty expression: " +:+ expr ctx)
  | _ :: _ :: _ => Throw ("unconsumed values on stack: " +:+ expr ctx)
  | [res] =>
      match format (vo ctx) with
      | Some fmt => lowerStore fmt res
      | None => NullDeref
      end
  end.

End Lowering.

(** ** [compile]: the property rewrite, the lowering and the loop nest *)

(** One step of the rewrite loop over the ops; [paMap] interns the
    [(clip, name)] pairs. *)
Definition resolveOp (n : Z) (tok : string) (op : ExprOp)
    (paMap : gmap (Z * string) nat) : Outcome (ExprOp * gmap (Z * string) nat) :=
  let last := LoadConstType.LAST in
  if negb (bool_decide (type op = LOAD_CONST)) || (imm_i op <? last) then
    Ok (op, paMap)
  else
    let id := imm_i op - last in
    if n <=? id then Throw ("reference to undefined clip: " +:+ tok)
    else
      let key := (id, name op) in
      let paMap' :=
        match paMap !! key with
        | None => <[key := size paMap]> paMap
        | Some _ => paMap
        end in
      match paMap' !! key with
      | Some k => Ok (mkOp (type op) (u32 (last + Z.of_nat k)) (name op), paMap')
      | None => NullDeref
      end.

Fixpoint resolveOps (n : Z) (toks : list string) (os : list ExprOp)
    (paMap : gmap (Z * string) nat)
    : Outcome (list ExprOp * gmap (Z * string) nat) :=
  match os with
  | [] => Ok ([], paMap)
  | op :: os' =>
      '(op', paMap') ← resolveOp n (hd ""%string toks) op paMap;
      '(rest, paMap'') ← resolveOps n (tl toks) os' paMap';
      Ok (op' :: rest, paMap'')
  end.

(** [pa[item.second] = PropAccess{item.first.first, item.first.second}] for
    every item of the map, on a vector of [paMap.size()] default entries. *)
Definition propAccessOf (paMap : gmap (Z * string) nat) : list PropAccess :=
  map_fold (fun key idx pa => <[idx := mkPA key.1 key.2]> pa)
           (replicate (size paMap) (mkPA 0 "")) paMap.

(** A plane is read and written by column and row. *)
Definition Plane : Type := Z -> Z -> Z.

Definition store (out : Plane) (c r val : Z) : Plane :=
  fun c' r' => if (c' =? c) && (r' =? r) then val else out c' r'.

(** The state of lane [k] when the body runs at column [xx] of row [yy]:
    pointer 0 is the output plane, pointer [i + 1] is input [i]. *)
Definition laneState (srcs : Z -> Plane) (cs : list Z) (yy xx k : Z) : State :=
  mkState (fun p => srcs (p - 1)) cs (fun i => i) yy xx k.

(** One vector store: every lane writes its sample. *)
Fixpoint storeLanes (body : State -> Z) (srcs : Z -> Plane) (cs : list Z)
    (yy xx : Z) (lanes : list Z) (out : Plane) : Plane :=
  match lanes with
  | [] => out
  | k :: lanes' =>
      storeLanes body srcs cs yy xx lanes'
        (store out (xx + k) yy (body (laneState srcs cs yy xx k)))
  end.

Definition allLanes : list Z := Eval vm_compute in map Z.of_nat (seq 0 (Z.to_nat LANES)).

(** [For(x = 0, x < width, x += LANES*UNROLL)], with the iteration bound as
    fuel. *)
Fixpoint loopX (fuel : nat) (body : State -> Z) (srcs : Z -> Plane) (cs : list Z)
    (w yy xx : Z) (out : Plane) : Plane :=
  match fuel with
  | O => out
  | S fuel' =>
      if xx <? w then
        loopX fuel' body srcs cs w yy (xx + LANES * UNROLL)
          (storeLanes body srcs cs yy xx allLanes out)
      else out
  end.

(** [For(y = 0, y < height, y++)] *)
Fixpoint loopY (fuel : nat) (body : State -> Z) (srcs : Z -> Plane) (cs : list Z)
    (w h yy : Z) (out : Plane) : Plane :=
  match fuel with
  | O => out
  | S fuel' =>
      if yy <? h then
        loopY fuel' body srcs cs w h (yy + 1)
          (loopX (Z.to_nat w) body srcs cs w yy 0 out)
      else out
  end.

(** The routine behind [procPlane]: the planes, the constants, the size;
    the result is the output plane after the call. *)
Definition procPlane (body : option (State -> Z)) (out : Plane) (srcs : Z -> Plane)
    (cs : list Z) (w h : Z) : Plane :=
  match body with
  | Some b => loopY (Z.to_nat h) b srcs cs w h 0 out
  | None => out
  end.

Record Compiled : Type := mkCompiled {
  routine : Plane -> (Z -> Plane) -> list Z -> Z -> Z -> Plane;
  propAccess : list PropAccess;
}.

Definition withOps (ctx : Context) (os : list ExprOp) : Context :=
  mkContext (expr ctx) (tokens ctx) os (vo ctx) (vi ctx) (numInputs ctx) (optMask ctx).

Definition compile (helpers : Helper) (rr : Reactor) (ctx : Context) : Outcome Compiled :=
  '(os, paMap) ← resolveOps (numInputs ctx) (tokens ctx) (ops ctx) ∅;
  let pa := propAccessOf paMap in
  body ← buildOneIter helpers rr (withOps ctx os);
  Ok (mkCompiled (procPlane body) pa).

(** ** [exprGetFrame]: the constants buffer of one frame *)

(** Frame properties as the host API shows them: a key holds an array of
    integers, an array of doubles, or something else. *)
Inductive VSProp : Type :=
  | PropInt (l : list Z)
  | PropFloat (l : list spec_float)
  | PropOther.

Definition peUnset : Z := 1.
Definition peType : Z := 2.
Definition peIndex : Z := 4.

(** [propGetInt] and [propGetFloat] return the value and the error code;
    the value is 0 on error. *)
Definition propGetInt (m : gmap string VSProp) (key : string) (index : nat) : Z * Z :=
  match m !! key with
  | None => (0, peUnset)
  | Some (PropInt l) =>
      match l !! index with Some i => (i, 0) | None => (0, peIndex) end
  | Some _ => (0, peType)
  end.

Definition propGetFloat (m : gmap string VSProp) (key : string) (index : nat)
    : spec_float * Z :=
  match m !! key with
  | None => (S754_zero false, peUnset)
  | Some (PropFloat l) =>
      match l !! index with Some d => (d, 0) | None => (S754_zero false, peIndex) end
  | Some _ => (S754_zero false, peType)
  end.

(** The conversion of a [double] to [float]. *)
Definition double_to_float (d : spec_float) : Z :=
  match d with
  | S754_finite s m e => F32.to_bits (binary_round F32.prec F32.emax s m e)
  | _ => F32.to_bits d
  end.

(** [std::nanf("")] *)
Definition nanf : Z := F32.nan.

Definition propValue (m : gmap string VSProp) (key : string) : Z :=
  let '(i, err) := propGetInt m key 0 in
  let val := F32.of_Z i in
  let '(val, err) :=
    if err =? peType then
      let '(d, err') := propGetFloat m key 0 in (double_to_float d, err')
    else (val, err) in
  if negb (err =? 0) then nanf else val.

Fixpoint propValues (src : list (gmap string VSProp)) (pas : list PropAccess)
    : Outcome (list Z) :=
  match pas with
  | [] => Ok []
  | pa :: pas' =>
      if clip pa <? 0 then NullDeref
      else
        match src !! Z.to_nat (clip pa) with
        | Some m =>
            rest ← propValues src pas';
            Ok (propValue m (pa_name pa) :: rest)
        | None => NullDeref
        end
  end.

(** [consts] for frame [n]: slot 0 is the frame number, then one slot per
    descriptor; [src] holds the properties of the frame of every input. *)
Definition frameConsts (n : Z) (src : list (gmap string VSProp))
    (pas : list PropAccess) : Outcome (list Z) :=
  vals ← propValues src pas;
  Ok (u32 n :: vals).

(** ** [exprCreate] *)

Record VSAPI : Type := mkVSAPI {
  registerFormat : VSColorFamily -> VSSampleType -> Z -> Z -> Z -> option VSFormat;
}.

(** The arguments of [Expr]: the video info of every clip, the expressions,
    the format behind the preset id (if the argument is given and the id is
    known) and [opt]. *)
Record ExprArgs : Type := mkArgs {
  arg_clips : list VSVideoInfo;
  arg_expr : list string;
  arg_format : option VSFormat;
  arg_opt : option Z;
}.

Record ExprData : Type := mkExprData {
  d_vi : VSVideoInfo;
  d_plane : list PlaneOp;
  d_numInputs : Z;
  d_compiled : list (option Compiled);
}.

(** What the host sees: a filter, or an error message and no filter. *)
Inductive CreateResult : Type :=
  | Created (d : ExprData)
  | SetError (msg : string).

Definition isConstantFormat (info : VSVideoInfo) : bool :=
  (0 <? height info) && (0 <? width info) && bool_decide (is_Some (format info)).

(** The sample-format test on an input clip: [true] where it throws. *)
Definition inputFormatRejected (f : VSFormat) : bool :=
  ((16 <? bitsPerSample f) && bool_decide (sampleType f = stInteger))
  || (negb (bitsPerSample f =? 32) && bool_decide (sampleType f = stFloat)).

Definition checkClip (f0 : VSFormat) (i0 info : VSVideoInfo) : Outcome unit :=
  if negb (isConstantFormat info) then
    Throw "Only clips with constant format and dimensions allowed"
  else
    match format info with
    | None => NullDeref
    | Some f =>
        if negb (numPlanes f0 =? numPlanes f)
           || negb (subSamplingW f0 =? subSamplingW f)
           || negb (subSamplingH f0 =? subSamplingH f)
           || negb (width i0 =? width info)
           || negb (height i0 =? height info)
        then Throw "All inputs must have the same number of planes and the same dimensions, subsampling included"
        else if inputFormatRejected f then
          Throw "Input clips must be 8-16 bit integer or 32 bit float format"
        else Ok ()
    end.

Fixpoint checkClips (f0 : VSFormat) (i0 : VSVideoInfo) (l : list VSVideoInfo)
    : Outcome unit :=
  match l with
  | [] => Ok ()
  | info :: l' => _ ← checkClip f0 i0 info; checkClips f0 i0 l'
  end.

(** [vi[0]->format] is read inside the first round of the loop, after
    [isConstantFormat] has tested the pointer. *)
Definition checkAllClips (l : list VSVideoInfo) : Outcome unit :=
  match l with
  | [] => Ok ()
  | i0 :: _ =>
      if negb (isConstantFormat i0) then
        Throw "Only clips with constant format and dimensions allowed"
      else
        match format i0 with
        | Some f0 => checkClips f0 i0 l
        | None => NullDeref
        end
  end.

Definition outputInfo (api : VSAPI) (i0 : VSVideoInfo) (f0 : VSFormat)
    (preset : option VSFormat) : Outcome VSVideoInfo :=
  match preset with
  | None => Ok i0
  | Some f =>
      if bool_decide (colorFamily f0 = cmCompat) then
        Throw "No compat formats allowed"
      else if negb (numPlanes f0 =? numPlanes f) then
        Throw "The number of planes in the inputs and output must match"
      else
        Ok (mkVideoInfo
              (registerFormat api (colorFamily f0) (sampleType f) (bitsPerSample f)
                 (subSamplingW f0) (subSamplingH f0))
              (width i0) (height i0))
  end.

(** [expr[i]] for the three planes: the strings given, then the last one
    repeated. *)
Definition planeExprs (l : list string) : Outcome (list string) :=
  match last l with
  | None => NullDeref
  | Some e => Ok (take 3 (l ++ replicate 3 e))
  end.

Section Create.

Variable helpers : Helper.
Variable rr : Reactor.

(** [Compiler<LANES> comp(expr, vo, vi, numInputs, opt); comp.compile()] *)
Definition compileExpr (e : string) (o : VSVideoInfo) (i : list VSVideoInfo)
    (n opt : Z) : Outcome Compiled :=
  ctx ← newContext e o i n opt;
  compile helpers rr ctx.

Definition createPlane (out : VSVideoInfo) (fo f0 : VSFormat)
    (clips : list VSVideoInfo) (optM : Z) (e : string)
    : Outcome (PlaneOp * option Compiled) :=
  if negb (String.eqb e "") then
    c ← compileExpr e out clips (Z.of_nat (length clips)) optM;
    Ok (poProcess, Some c)
  else if (bitsPerSample fo =? bitsPerSample f0)
          && bool_decide (sampleType fo = sampleType f0)
  then Ok (poCopy, None)
  else Ok (poUndefined, None).

Fixpoint createPlanes (out : VSVideoInfo) (fo f0 : VSFormat)
    (clips : list VSVideoInfo) (optM : Z) (es : list string)
    : Outcome (list (PlaneOp * option Compiled)) :=
  match es with
  | [] => Ok []
  | e :: es' =>
      p ← createPlane out fo f0 clips optM e;
      ps ← createPlanes out fo f0 clips optM es';
      Ok (p :: ps)
  end.

Variable api : VSAPI.

(** The body of the [try] block. *)
Definition exprCreateBody (a : ExprArgs) : Outcome ExprData :=
  let clips := arg_clips a in
  let n := Z.of_nat (length clips) in
  if MAX_EXPR_INPUTS <? n then Throw "More than 26 input clips provided"
  else
    _ ← checkAllClips clips;
    match clips with
    | [] => NullDeref
    | i0 :: _ =>
        match format i0 with
        | None => NullDeref
        | Some f0 =>
            out ← outputInfo api i0 f0 (arg_format a);
            match format out with
            | None => NullDeref
            | Some fo =>
                if numPlanes fo <? Z.of_nat (length (arg_expr a)) then
                  Throw "More expressions given than there are planes"
                else
                  es ← planeExprs (arg_expr a);
                  let optM := default 1 (arg_opt a) in
                  ps ← createPlanes out fo f0 clips optM
                         (take (Z.to_nat (numPlanes fo)) es);
                  Ok (mkExprData out (ps.*1) n (ps.*2))
            end
        end
    end.

(** A [std::runtime_error] is caught and reported through [setError];
    nothing else is caught. *)
Definition exprCreate (a : ExprArgs) : Outcome CreateResult :=
  match exprCreateBody a with
  | Ok d => Ok (Created d)
  | Throw msg => Ok (SetError ("Expr: " +:+ msg))
  | BadVariantAccess => BadVariantAccess
  | Aborted => Aborted
  | UninitRead => UninitRead
  | NullDeref => NullDeref
  end.

End Create.

(** * Properties *)

(** ** The loop nest writes every pixel once, with the state of its lane *)

(** The state in which the body runs for the pixel at column [c], row [r]:
    the block starts at the multiple of [LANES] below [c]. *)
Definition pixelState (srcs : Z -> Plane) (cs : list Z) (c r : Z) : State :=
  laneState srcs cs r (8 * (c / 8)) (c mod 8).

Section Loops.

Variable body : State -> Z.
Variable srcs : Z -> Plane.
Variable cs : list Z.

Lemma storeLanes_spec yy xx lanes out c r :
  storeLanes body srcs cs yy xx lanes out c r =
    if bool_decide (r = yy ∧ (c - xx) ∈ lanes)
    then body (laneState srcs cs yy xx (c - xx))
    else out c r.
Proof.
  revert out. induction lanes as [|k lanes IH]; intros out; simpl.
  - case_bool_decide as H; [|done]. destruct H as [_ H]. by apply elem_of_nil in H.
  - rewrite IH. unfold store.
    case_bool_decide as H1; case_bool_decide as H2; try done.
    + destruct H2. split; [tauto|]. apply elem_of_cons. tauto.
    + destruct H2 as [-> H2]. apply elem_of_cons in H2 as [H2|H2]; [|tauto].
      assert (c = xx + k) as -> by lia.
      rewrite !Z.eqb_refl. simpl. f_equal. f_equal. lia.
    + destruct (c =? xx + k) eqn:E1; destruct (r =? yy) eqn:E2; simpl; try done.
      apply Z.eqb_eq in E1, E2. subst. destruct H2. split; [done|].
      apply elem_of_cons. left. lia.
Qed.

Lemma elem_of_allLanes k : k ∈ allLanes ↔ 0 ≤ k < 8.
Proof.
  unfold allLanes. rewrite !elem_of_cons, elem_of_nil. lia.
Qed.

Lemma loopX_spec w yy fuel : ∀ xx out c r,
  0 ≤ xx → xx mod 8 = 0 → w - xx ≤ Z.of_nat fuel →
  loopX fuel body srcs cs w yy xx out c r =
    if bool_decide (r = yy ∧ xx ≤ c ∧ 8 * (c / 8) < w)
    then body (pixelState srcs cs c r)
    else out c r.
Proof.
  induction fuel as [|fuel IH]; intros xx out c r Hx Hm Hf; cbn [loopX].
  - case_bool_decide as H; [|done]. exfalso.
    destruct H as (_ & H1 & H2).
    assert (xx ≤ 8 * (c / 8)); [|lia].
    rewrite (Z.div_mod xx 8), Hm by lia.
    assert (xx / 8 ≤ c / 8) by (apply Z.div_le_mono; lia). lia.
  - destruct (xx <? w) eqn:E.
    + apply Z.ltb_lt in E.
      rewrite IH; [| unfold LANES, UNROLL; lia | | unfold LANES, UNROLL; lia].
      2:{ unfold LANES, UNROLL. replace (xx + 8 * 1) with (xx + 1 * 8) by lia.
          by rewrite Z.mod_add. }
      rewrite storeLanes_spec.
      unfold LANES, UNROLL.
      assert (Hblk : xx ≤ c < xx + 8 → 8 * (c / 8) = xx ∧ c mod 8 = c - xx).
      { intros Hc. pose proof (Z.div_mod xx 8 ltac:(lia)) as Hd. rewrite Hm in Hd.
        assert (c / 8 = xx / 8).
        { symmetry. apply (Z.div_unique c 8 (xx / 8) (c - xx)); lia. }
        pose proof (Z.div_mod c 8 ltac:(lia)). lia. }
      repeat case_bool_decide; rewrite ?elem_of_allLanes in *;
        try done; try (exfalso; lia).
      assert (r = yy) as -> by lia.
      destruct (Hblk ltac:(lia)) as [Hb1 Hb2].
      unfold pixelState. by rewrite Hb1, Hb2.
    + apply Z.ltb_ge in E.
      case_bool_decide as H; [|done]. exfalso.
      destruct H as (_ & H1 & H2).
      assert (xx ≤ 8 * (c / 8)); [|lia].
      rewrite (Z.div_mod xx 8), Hm by lia.
      assert (xx / 8 ≤ c / 8) by (apply Z.div_le_mono; lia). lia.
Qed.

Lemma loopY_spec w h fuel : ∀ yy out c r,
  0 ≤ w → h - yy ≤ Z.of_nat fuel →
  loopY fuel body srcs cs w h yy out c r =
    if bool_decide (yy ≤ r < h ∧ 0 ≤ c ∧ 8 * (c / 8) < w)
    then body (pixelState srcs cs c r)
    else out c r.
Proof.
  induction fuel as [|fuel IH]; intros yy out c r Hw Hf; cbn [loopY].
  - case_bool_decide as H; [lia|done].
  - destruct (yy <? h) eqn:E.
    + apply Z.ltb_lt in E. rewrite IH by lia.
      rewrite loopX_spec by (try done; lia).
      repeat case_bool_decide; try done; exfalso; lia.
    + apply Z.ltb_ge in E. case_bool_decide as H; [lia|done].
Qed.

(** Every pixel of a [w] by [h] plane holds what the body computes in the
    state of that pixel. *)
Lemma procPlane_pixel out w h c r :
  0 ≤ c < w → 0 ≤ r < h →
  procPlane (Some body) out srcs cs w h c r = body (pixelState srcs cs c r).
Proof.
  intros Hc Hr. unfold procPlane.
  rewrite loopY_spec by lia.
  case_bool_decide as H; [done|]. exfalso. apply H.
  pose proof (Z.div_mod c 8 ltac:(lia)).
  pose proof (Z.mod_pos_bound c 8 ltac:(lia)). lia.
Qed.

End Loops.

(** ** The value stack *)

Lemma LOAD1_snoc (stack : list Value) (a : Value) :
  LOAD1 (stack ++ [a]) = Ok (a, stack).
Proof.
  unfold LOAD1. rewrite last_snoc, length_app. simpl.
  replace (length stack + 1 - 1)%nat with (length stack) by lia.
  by rewrite take_app_length.
Qed.

Lemma LOAD2_snoc (stack : list Value) (l r : Value) :
  LOAD2 (stack ++ [l; r]) = Ok (l, r, stack).
Proof.
  unfold LOAD2. replace (stack ++ [l; r]) with ((stack ++ [l]) ++ [r]).
  - rewrite LOAD1_snoc. simpl. by rewrite LOAD1_snoc.
  - by rewrite <- app_assoc.
Qed.

(** ** Logical operators *)

(** With operands of one numeric family the logical operators test each
    operand against the zero of that family. *)
Lemma LOGICOP_int (op : Z -> Z -> Z) (stack : list Value) (l r : Value) li ri :
  v l = VInt li → v r = VInt ri →
  LOGICOP op (stack ++ [l; r]) =
    Ok (stack ++ [Value_IntV (fun st =>
          Z.land (op (mask (0 <? li st)) (mask (0 <? ri st))) 1)]).
Proof.
  intros Hl Hr. unfold LOGICOP. rewrite LOAD2_snoc. cbn [mbind Outcome_bind].
  unfold isFloat, Value_i. by rewrite Hl, Hr.
Qed.

Lemma LOGICOP_float (op : Z -> Z -> Z) (stack : list Value) (l r : Value) lf rf :
  v l = VFloat lf → v r = VFloat rf →
  LOGICOP op (stack ++ [l; r]) =
    Ok (stack ++ [Value_IntV (fun st =>
          Z.land (op (mask (F32.ltb f32_zero (lf st)))
                     (mask (F32.ltb f32_zero (rf st)))) 1)]).
Proof.
  intros Hl Hr. unfold LOGICOP. rewrite LOAD2_snoc. cbn [mbind Outcome_bind].
  unfold isFloat, Value_f. by rewrite Hl, Hr.
Qed.

(** With one float and one integer operand, the right operand is read
    through the accessor of the left operand's family. *)
Lemma LOGICOP_mixed (op : Z -> Z -> Z) (stack : list Value) (l r : Value) :
  isFloat l ≠ isFloat r →
  LOGICOP op (stack ++ [l; r]) = BadVariantAccess.
Proof.
  intros H. unfold LOGICOP. rewrite LOAD2_snoc. cbn [mbind Outcome_bind].
  unfold isFloat, Value_f, Value_i in *.
  destruct (v l), (v r); cbn [mbind Outcome_bind]; congruence.
Qed.

(** Inputs for the concrete instances: one 8-bit gray clip, four pixels
    wide; the math helpers are not called by any of them. *)
Definition gray8 : VSFormat := mkFormat cmGray stInteger 8 1 0 0 1.
Definition clip8 : VSVideoInfo := mkVideoInfo (Some gray8) 4 1.
Definition noHelper : Helper :=
  mkHelper (fun a => a) (fun a => a) (fun a => a) (fun a => a) (fun a _ => a).
Definition noReactor : Reactor := mkReactor (fun a _ => a) (fun _ => false).
Definition noAPI : VSAPI := mkVSAPI (fun _ _ _ _ _ => None).

(** C1: on [x 0.5 and] over one 8-bit integer clip with integer arithmetic
    enabled, the left operand is an integer vector and the right one a float
    constant; lowering the [and] reads the right operand as an integer and
    ends in [bad_variant_access] instead of pushing a mask. *)
Theorem logicop_mixed_operands_throw (h : Helper) (rr : Reactor) :
  compileExpr h rr "x 0.5 and" clip8 [clip8] 1 1 = BadVariantAccess.
Proof. vm_compute. reflexivity. Qed.

(** ** Stack helpers *)

(** C10: the token [swap0] decodes to a [SWAP] with immediate 0; on a
    non-empty value stack its lowering is accepted and returns the stack as
    it was. *)
Theorem swap0_identity :
  decodeToken "swap0" = Ok (opi SWAP 0) ∧
  ∀ (h : Helper) (rr : Reactor) (ctx : Context) (tok : string) (stack : list Value),
    stack ≠ [] → lowerOp h rr ctx tok (opi SWAP 0) stack = Ok stack.
Proof.
  split; [by vm_compute|].
  intros h rr ctx tok stack Hne.
  destruct (last stack) as [a|] eqn:Hlast; [|by apply last_None in Hlast].
  assert (Hlen : (0 < length stack)%nat) by (destruct stack; [done | simpl; lia]).
  unfold lowerOp. cbn [type opi].
  change (imm_u (opi SWAP 0)) with 0.
  change (bool_decide (SWAP = MEM_LOAD)) with false.
  cbn [andb orb numOperands].
  destruct (Z.of_nat (length stack) <=? 0) eqn:E; [apply Z.leb_le in E; lia|].
  rewrite andb_false_r.
  replace (length stack <? 0)%nat with false by (symmetry; apply Nat.ltb_ge; lia).
  unfold fromTop. rewrite last_lookup in Hlast.
  change (Z.to_nat 0) with 0%nat.
  replace (length stack - 1 - 0)%nat with (pred (length stack)) by lia.
  rewrite Hlast. by rewrite !(list_insert_id stack _ a Hlast).
Qed.

Lemma swap0_identity_witness :
  lowerOp noHelper noReactor
    (mkContext "swap0" ["swap0"] [opi SWAP 0] clip8 [clip8] 1 1)
    "swap0" (opi SWAP 0) [Value_int 1] = Ok [Value_int 1].
Proof. apply (proj2 swap0_identity). discriminate. Defined.

(** On an empty stack [swap0] is refused. *)
Lemma swap0_empty (h : Helper) (rr : Reactor) (ctx : Context) (tok : string) :
  lowerOp h rr ctx tok (opi SWAP 0) [] = Throw ("insufficient values on stack: " +:+ tok).
Proof. reflexivity. Qed.

(** ** Memory loads under the creation-time format check *)

(** The shape the host gives every registered format: 8 to 32 bits, stored
    in the smallest power-of-two number of bytes that holds them. *)
Definition hostFormat (f : VSFormat) : Prop :=
  8 ≤ bitsPerSample f ≤ 32 ∧
  bytesPerSample f =
    (if bitsPerSample f <=? 8 then 1 else if bitsPerSample f <=? 16 then 2 else 4).

Lemma checkClip_format f0 i0 info :
  checkClip f0 i0 info = Ok () →
  ∃ f, format info = Some f ∧ inputFormatRejected f = false.
Proof.
  unfold checkClip. destruct (negb (isConstantFormat info)); [done|].
  destruct (format info) as [f|]; [|done].
  destruct (_ || _); [done|].
  destruct (inputFormatRejected f) eqn:E; [done|]. eauto.
Qed.

Lemma checkClips_format f0 i0 l :
  checkClips f0 i0 l = Ok () →
  ∀ info, info ∈ l → ∃ f, format info = Some f ∧ inputFormatRejected f = false.
Proof.
  induction l as [|a l IH]; simpl; intros H info Hin.
  - by apply elem_of_nil in Hin.
  - destruct (checkClip f0 i0 a) as [[]| | | | |] eqn:E; try done. simpl in H.
    apply elem_of_cons in Hin as [->|Hin]; [by eapply checkClip_format | by apply IH].
Qed.

Lemma checkAllClips_format l :
  checkAllClips l = Ok () →
  ∀ info, info ∈ l → ∃ f, format info = Some f ∧ inputFormatRejected f = false.
Proof.
  unfold checkAllClips. destruct l as [|i0 l]; [intros _ ? H; by apply elem_of_nil in H|].
  destruct (negb (isConstantFormat i0)); [done|].
  destruct (format i0) as [f0|]; [|done].
  apply checkClips_format.
Qed.

Lemma validated_bytes f :
  inputFormatRejected f = false → hostFormat f →
  match sampleType f with
  | stInteger => bytesPerSample f = 1 ∨ bytesPerSample f = 2
  | stFloat => bytesPerSample f = 4
  end.
Proof.
  unfold inputFormatRejected, hostFormat. intros H [Hb ->].
  apply orb_false_iff in H as [H1 H2].
  destruct (sampleType f).
  - rewrite bool_decide_eq_true_2, andb_true_r in H1 by done.
    apply Z.ltb_ge in H1.
    destruct (bitsPerSample f <=? 8); [by left|].
    destruct (bitsPerSample f <=? 16) eqn:E; [by right|]. apply Z.leb_gt in E. lia.
  - rewrite bool_decide_eq_true_2, andb_true_r in H2 by done.
    apply negb_false_iff, Z.eqb_eq in H2. by rewrite H2.
Qed.

(** The value a [MEM_LOAD] of clip [i] pushes when the load is emitted. *)
Definition loadedValue (ff : bool) (i : Z) (fmt : VSFormat) : Value :=
  match sampleType fmt with
  | stInteger =>
      if ff then Value_FloatV (IntToFloat (load_sample i (bytesPerSample fmt)))
      else Value_IntV (load_sample i (bytesPerSample fmt))
  | stFloat => Value_FloatV (load_sample i 4)
  end.

Lemma lowerOp_mem_load h rr ctx tok op stack info fmt :
  type op = MEM_LOAD →
  0 ≤ imm_i op < numInputs ctx →
  vi ctx !! Z.to_nat (imm_i op) = Some info →
  format info = Some fmt →
  match sampleType fmt with
  | stInteger => bytesPerSample fmt = 1 ∨ bytesPerSample fmt = 2
  | stFloat => bytesPerSample fmt = 4
  end →
  lowerOp h rr ctx tok op stack =
    Ok (stack ++ [loadedValue (forceFloat ctx) (imm_i op) fmt]).
Proof.
  intros Hty Hi Hinfo Hfmt Hbytes.
  unfold lowerOp. rewrite Hty.
  rewrite bool_decide_eq_true_2 by done.
  replace (numInputs ctx <=? imm_i op) with false by (symmetry; apply Z.leb_gt; lia).
  change (bool_decide (MEM_LOAD = DUP)) with false.
  change (bool_decide (MEM_LOAD = SWAP)) with false.
  cbn [andb orb numOperands].
  replace (length stack <? 0)%nat with false by (symmetry; apply Nat.ltb_ge; lia).
  replace (imm_i op <? 0) with false by (symmetry; apply Z.ltb_ge; lia).
  rewrite Hinfo, Hfmt. unfold lowerMemLoad, loadedValue, OUT.
  destruct (sampleType fmt).
  - destruct Hbytes as [-> | ->]; simpl; by destruct (forceFloat ctx).
  - rewrite Hbytes. done.
Qed.

(** C3: when every input clip passed the format check of filter creation
    and has a host-registered format, the lowering of a [MEM_LOAD] of a
    defined clip pushes the loaded vector: the integer sample takes one or
    two bytes, the float sample four, so neither the branch that leaves the
    loaded vector unassigned nor the 16-bit-float abort is reached. *)
Theorem mem_load_initialized (h : Helper) (rr : Reactor) (ctx : Context)
    (tok : string) (op : ExprOp) (stack : list Value) :
  checkAllClips (vi ctx) = Ok () →
  (∀ info f, info ∈ vi ctx → format info = Some f → hostFormat f) →
  numInputs ctx = Z.of_nat (length (vi ctx)) →
  type op = MEM_LOAD →
  0 ≤ imm_i op < numInputs ctx →
  ∃ info fmt,
    vi ctx !! Z.to_nat (imm_i op) = Some info ∧ format info = Some fmt ∧
    match sampleType fmt with
    | stInteger => bytesPerSample fmt = 1 ∨ bytesPerSample fmt = 2
    | stFloat => bytesPerSample fmt = 4
    end ∧
    lowerOp h rr ctx tok op stack =
      Ok (stack ++ [loadedValue (forceFloat ctx) (imm_i op) fmt]).
Proof.
  intros Hchk Hhost Hn Hty Hi.
  destruct (lookup_lt_is_Some_2 (vi ctx) (Z.to_nat (imm_i op)) ltac:(lia)) as [info Hinfo].
  assert (Hin : info ∈ vi ctx) by (apply list_elem_of_lookup; eauto).
  destruct (checkAllClips_format _ Hchk _ Hin) as (fmt & Hfmt & Hok).
  pose proof (validated_bytes fmt Hok (Hhost _ _ Hin Hfmt)) as Hbytes.
  exists info, fmt. repeat split; try done.
  by apply lowerOp_mem_load with info.
Qed.

Lemma mem_load_initialized_witness :
  ∃ info fmt,
    [clip8] !! Z.to_nat 0 = Some info ∧ format info = Some fmt ∧
    match sampleType fmt with
    | stInteger => bytesPerSample fmt = 1 ∨ bytesPerSample fmt = 2
    | stFloat => bytesPerSample fmt = 4
    end ∧
    lowerOp noHelper noReactor (mkContext "x" ["x"] [opi MEM_LOAD 0] clip8 [clip8] 1 1)
      "x" (opi MEM_LOAD 0) [] =
      Ok ([] ++ [loadedValue false 0 fmt]).
Proof.
  apply (mem_load_initialized noHelper noReactor
           (mkContext "x" ["x"] [opi MEM_LOAD 0] clip8 [clip8] 1 1) "x" (opi MEM_LOAD 0) []).
  - reflexivity.
  - intros info f Hin Hf. apply list_elem_of_singleton in Hin. subst info.
    injection Hf as <-. unfold hostFormat. simpl. lia.
  - reflexivity.
  - reflexivity.
  - vm_compute. split; [discriminate | reflexivity].
Defined.

(** ** Arity errors and the empty expression *)

Section Arity.

Variable h : Helper.
Variable rr : Reactor.

Lemma compile_plus o i n opt :
  compileExpr h rr "+" o i n opt = Throw "insufficient values on stack: +".
Proof. vm_compute. reflexivity. Qed.

Lemma compile_two_literals o i n opt :
  compileExpr h rr "1 2" o i n opt = Throw "unconsumed values on stack: 1 2".
Proof. vm_compute. reflexivity. Qed.

Lemma compile_no_token o i n opt :
  compileExpr h rr "" o i n opt = Throw "empty expression: ".
Proof. vm_compute. reflexivity. Qed.

Lemma compile_blank o i n opt :
  compileExpr h rr " " o i n opt = Throw "empty expression:  ".
Proof. vm_compute. reflexivity. Qed.

Variable api : VSAPI.

(** The arguments get as far as the loop over the planes: at most 26
    clips, all accepted, the first one [i0] with format [f0]; the output
    is [out] with format [fo] and one to three planes. *)
Definition reachesPlanes (a : ExprArgs) (i0 : VSVideoInfo) (f0 : VSFormat)
    (out : VSVideoInfo) (fo : VSFormat) : Prop :=
  Z.of_nat (length (arg_clips a)) ≤ MAX_EXPR_INPUTS ∧
  checkAllClips (arg_clips a) = Ok () ∧
  head (arg_clips a) = Some i0 ∧
  format i0 = Some f0 ∧
  outputInfo api i0 f0 (arg_format a) = Ok out ∧
  format out = Some fo ∧
  1 ≤ numPlanes fo ≤ 3.

Lemma exprCreateBody_single a i0 f0 out fo e :
  reachesPlanes a i0 f0 out fo → arg_expr a = [e] →
  exprCreateBody h rr api a =
    (ps ← createPlanes h rr out fo f0 (arg_clips a) (default 1 (arg_opt a))
            (take (Z.to_nat (numPlanes fo)) [e; e; e]);
     Ok (mkExprData out (ps.*1) (Z.of_nat (length (arg_clips a))) (ps.*2))).
Proof.
  intros (Hn & Hchk & Hhd & Hf0 & Hout & Hfo & Hpl) He.
  unfold exprCreateBody.
  replace (MAX_EXPR_INPUTS <? _) with false by (symmetry; apply Z.ltb_ge; lia).
  rewrite Hchk. cbn [mbind Outcome_bind].
  destruct (arg_clips a) as [|i0' l] eqn:Hc; [done|].
  injection Hhd as ->. rewrite Hf0, Hout. cbn [mbind Outcome_bind].
  rewrite Hfo, He. cbn [length].
  replace (numPlanes fo <? Z.of_nat 1) with false by (symmetry; apply Z.ltb_ge; lia).
  reflexivity.
Qed.

Lemma take_planes (e : string) n :
  1 ≤ n → ∃ es, take (Z.to_nat n) [e; e; e] = e :: es ∧ Forall (eq e) es.
Proof.
  intros Hn. destruct (Z.to_nat n) as [|k] eqn:E; [lia|].
  exists (take k [e; e]). split; [done|].
  apply Forall_take. by repeat constructor.
Qed.

Lemma createPlanes_throw out fo f0 clips optM e es msg :
  e ≠ ""%string →
  compileExpr h rr e out clips (Z.of_nat (length clips)) optM = Throw msg →
  createPlanes h rr out fo f0 clips optM (e :: es) = Throw msg.
Proof.
  intros Hne Hc. cbn [createPlanes]. unfold createPlane.
  destruct (String.eqb e "") eqn:E; [by apply String.eqb_eq in E|].
  cbn [negb]. by rewrite Hc.
Qed.

Definition idlePlane (fo f0 : VSFormat) : PlaneOp :=
  if (bitsPerSample fo =? bitsPerSample f0)
     && bool_decide (sampleType fo = sampleType f0)
  then poCopy else poUndefined.

Lemma createPlanes_idle out fo f0 clips optM es :
  Forall (eq ""%string) es →
  createPlanes h rr out fo f0 clips optM es =
    Ok (replicate (length es) (idlePlane fo f0, None)).
Proof.
  induction 1 as [|e es <- _ IH]; [done|].
  cbn [createPlanes length replicate]. rewrite IH.
  unfold createPlane, idlePlane. cbn.
  by destruct (_ && _).
Qed.

(** C4, as the code has it: with one expression given and arguments that
    reach the plane loop, [+] fails with the stack-underflow error and
    [1 2] with the unconsumed-values error, both reported through the
    error channel with no filter created.  The compiler rejects an
    expression without tokens as empty, and a blank expression fails
    creation that way; the empty string is never handed to the compiler:
    creation succeeds and every plane is copied or left undefined. *)
Theorem arity_errors a i0 f0 out fo e :
  reachesPlanes a i0 f0 out fo → arg_expr a = [e] →
  let n := Z.of_nat (length (arg_clips a)) in
  let opt := default 1 (arg_opt a) in
  (e = "+"%string →
     compileExpr h rr e out (arg_clips a) n opt
       = Throw "insufficient values on stack: +" ∧
     exprCreate h rr api a = Ok (SetError "Expr: insufficient values on stack: +")) ∧
  (e = "1 2"%string →
     compileExpr h rr e out (arg_clips a) n opt
       = Throw "unconsumed values on stack: 1 2" ∧
     exprCreate h rr api a = Ok (SetError "Expr: unconsumed values on stack: 1 2")) ∧
  (e = " "%string →
     compileExpr h rr e out (arg_clips a) n opt = Throw "empty expression:  " ∧
     exprCreate h rr api a = Ok (SetError "Expr: empty expression:  ")) ∧
  (e = ""%string →
     compileExpr h rr e out (arg_clips a) n opt = Throw "empty expression: " ∧
     exprCreate h rr api a =
       Ok (Created (mkExprData out
             (replicate (Z.to_nat (numPlanes fo)) (idlePlane fo f0)) n
             (replicate (Z.to_nat (numPlanes fo)) None)))).
Proof.
  intros Hr He n opt.
  pose proof (exprCreateBody_single a i0 f0 out fo e Hr He) as Hbody.
  destruct Hr as (_ & _ & _ & _ & _ & _ & Hpl).
  destruct (take_planes e (numPlanes fo) ltac:(lia)) as (es & Hes & Hall).
  assert (Hfail : ∀ msg, e ≠ ""%string →
            compileExpr h rr e out (arg_clips a) n opt = Throw msg →
            exprCreate h rr api a = Ok (SetError ("Expr: " +:+ msg))).
  { intros msg Hne Hc. unfold exprCreate. rewrite Hbody, Hes.
    by rewrite (createPlanes_throw _ _ _ _ _ _ _ msg Hne Hc). }
  split; [|split; [|split]]; intros ->.
  - split; [apply compile_plus|].
    apply (Hfail _ ltac:(done) (compile_plus _ _ _ _)).
  - split; [apply compile_two_literals|].
    apply (Hfail _ ltac:(done) (compile_two_literals _ _ _ _)).
  - split; [apply compile_blank|].
    apply (Hfail _ ltac:(done) (compile_blank _ _ _ _)).
  - split; [apply compile_no_token|].
    unfold exprCreate. rewrite Hbody.
    rewrite createPlanes_idle by (rewrite Hes; by constructor).
    cbn [mbind Outcome_bind]. rewrite length_take. cbn [length].
    rewrite !fmap_replicate. cbn [fst snd].
    by replace (Z.to_nat (numPlanes fo) `min` 3)%nat
      with (Z.to_nat (numPlanes fo)) by lia.
Qed.

End Arity.

Lemma arity_errors_witness :
  exprCreate noHelper noReactor noAPI (mkArgs [clip8] ["+"%string] None None)
    = Ok (SetError "Expr: insufficient values on stack: +").
Proof.
  destruct (arity_errors noHelper noReactor noAPI
              (mkArgs [clip8] ["+"%string] None None) clip8 gray8 clip8 gray8 "+")
    as [H _].
  - unfold reachesPlanes. simpl. unfold MAX_EXPR_INPUTS. repeat split; try reflexivity; lia.
  - reflexivity.
  - apply H. reflexivity.
Defined.

(** With the empty string as the expression, filter creation succeeds:
    the plane is marked for copying and nothing is compiled. *)
Lemma empty_expression_creates_filter :
  exprCreate noHelper noReactor noAPI (mkArgs [clip8] [""%string] None None)
    = Ok (Created (mkExprData clip8 [poCopy] 1 [None])).
Proof. vm_compute. reflexivity. Qed.

(** ** Compiling a whole expression *)

Lemma compileExpr_unfold h rr e o i n opt ctx os m body :
  newContext e o i n opt = Ok ctx →
  resolveOps (numInputs ctx) (tokens ctx) (ops ctx) ∅ = Ok (os, m) →
  buildOneIter h rr (withOps ctx os) = Ok body →
  compileExpr h rr e o i n opt = Ok (mkCompiled (procPlane body) (propAccessOf m)).
Proof.
  intros H1 H2 H3. unfold compileExpr. rewrite H1. cbn [mbind Outcome_bind].
  unfold compile. rewrite H2. cbn [mbind Outcome_bind]. by rewrite H3.
Qed.

(** ** Literal constants *)

Definition f32_two : Z := 0x40000000.

(** The literal [2.0] is pushed as an integer vector, not a float one. *)
Lemma literal_2_0_is_int :
  decodeToken "2.0" = Ok (opf CONSTANT f32_two) ∧
  lowerOp noHelper noReactor
    (mkContext "2.0" ["2.0"%string] [opf CONSTANT f32_two] clip8 [clip8] 1 1)
    "2.0" (opf CONSTANT f32_two) [] = Ok [Value_int 2] ∧
  isFloat (Value_int 2) = false.
Proof. repeat split; vm_compute; reflexivity. Qed.

Lemma lower_constant h rr ctx tok op stack :
  type op = CONSTANT →
  lowerOp h rr ctx tok op stack =
    Ok (stack ++ [if F32.eqb (imm_f op) (cast_float (cast_int (imm_f op)))
                  then Value_int (cast_int (imm_f op))
                  else Value_float (imm_f op)]).
Proof.
  intros Hty. unfold lowerOp. rewrite Hty.
  change (bool_decide (CONSTANT = MEM_LOAD)) with false.
  change (bool_decide (CONSTANT = DUP)) with false.
  change (bool_decide (CONSTANT = SWAP)) with false.
  cbn [andb orb numOperands].
  replace (length stack <? 0)%nat with false by (symmetry; apply Nat.ltb_ge; lia).
  unfold OUT. by destruct (F32.eqb _ _).
Qed.

Lemma propAccessOf_empty : propAccessOf ∅ = [].
Proof. reflexivity. Qed.

Lemma compile_literal_two h rr e cf sw sh np wo ho i n opt :
  e = "2"%string ∨ e = "2.0"%string →
  compileExpr h rr e (mkVideoInfo (Some (mkFormat cf stInteger 8 1 sw sh np)) wo ho)
    i n opt = Ok (mkCompiled (procPlane (Some (fun _ => 2))) []).
Proof.
  set (o := mkVideoInfo _ wo ho).
  intros [-> | ->].
  - rewrite (compileExpr_unfold h rr "2" o i n opt
               (mkContext "2" ["2"%string] [opf CONSTANT f32_two] o i n opt)
               [opf CONSTANT f32_two] ∅ (Some (fun _ => 2)));
      [by rewrite propAccessOf_empty | vm_compute; reflexivity ..].
  - rewrite (compileExpr_unfold h rr "2.0" o i n opt
               (mkContext "2.0" ["2.0"%string] [opf CONSTANT f32_two] o i n opt)
               [opf CONSTANT f32_two] ∅ (Some (fun _ => 2)));
      [by rewrite propAccessOf_empty | vm_compute; reflexivity ..].
Qed.

(** C7, as the code has it: a literal whose float immediate equals its
    truncation to [int] is pushed as an integer constant with that value, any
    other literal as a float constant with the immediate.  The test is on the
    value, so [2] and [2.0] decode to the same op and both push the integer
    constant 2; on an 8-bit integer output both store the byte 2 at every
    pixel. *)
Theorem literal_typing (h : Helper) (rr : Reactor) :
  (∀ ctx tok op stack,
     type op = CONSTANT →
     lowerOp h rr ctx tok op stack =
       Ok (stack ++ [if F32.eqb (imm_f op) (cast_float (cast_int (imm_f op)))
                     then Value_int (cast_int (imm_f op))
                     else Value_float (imm_f op)])) ∧
  decodeToken "2" = Ok (opf CONSTANT f32_two) ∧
  decodeToken "2.0" = Ok (opf CONSTANT f32_two) ∧
  (∀ ctx tok stack,
     lowerOp h rr ctx tok (opf CONSTANT f32_two) stack = Ok (stack ++ [Value_int 2])) ∧
  (∀ e cf sw sh np wo ho i n opt,
     e = "2"%string ∨ e = "2.0"%string →
     ∃ c,
       compileExpr h rr e
         (mkVideoInfo (Some (mkFormat cf stInteger 8 1 sw sh np)) wo ho) i n opt = Ok c ∧
       ∀ out srcs cs w hh col row,
         0 ≤ col < w → 0 ≤ row < hh → routine c out srcs cs w hh col row = 2).
Proof.
  split; [apply lower_constant|].
  split; [by vm_compute|]. split; [by vm_compute|].
  split.
  - intros ctx tok stack. by rewrite lower_constant.
  - intros e cf sw sh np wo ho i n opt He.
    eexists. split; [by apply compile_literal_two|].
    intros out srcs cs w hh col row Hc Hr. cbn [routine].
    by rewrite procPlane_pixel.
Qed.

Lemma literal_typing_witness :
  ∃ c,
    compileExpr noHelper noReactor "2.0" clip8 [clip8] 1 1 = Ok c ∧
    ∀ out srcs cs w hh col row,
      0 ≤ col < w → 0 ≤ row < hh → routine c out srcs cs w hh col row = 2.
Proof.
  destruct (literal_typing noHelper noReactor) as (_ & _ & _ & _ & H).
  apply (H "2.0"%string cmGray 0 0 1 4 1 [clip8] 1 1). right. reflexivity.
Defined.

(** ** Facts on binary32 values *)

Lemma of_bits_mantissa b s m e :
  F32.of_bits b = S754_finite s m e → Zpos m < 2 ^ 24.
Proof.
  unfold F32.of_bits.
  assert (Hm : 0 ≤ Z.land b (2 ^ 23 - 1) < 2 ^ 23).
  { change (2 ^ 23 - 1) with (Z.ones 23). rewrite Z.land_ones by lia.
    apply Z.mod_pos_bound. lia. }
  destruct (_ =? 0).
  - destruct (Z.land b (2 ^ 23 - 1)) eqn:E; try done. intros [= _ <- _]. lia.
  - destruct (_ =? 255); [by destruct (_ =? 0)|].
    destruct (Z.land b (2 ^ 23 - 1) + 2 ^ 23) eqn:E; try done. intros [= _ <- _]. lia.
Qed.

(** Rounding a magnitude to the nearest integer: the result is within half
    a unit, and it respects integer upper bounds. *)
Lemma mag_nearest_even_spec m e :
  e < 0 →
  0 ≤ F32.mag_nearest_even m e ∧
  2 * Z.abs (Zpos m - F32.mag_nearest_even m e * 2 ^ (- e)) ≤ 2 ^ (- e).
Proof.
  intros He. unfold F32.mag_nearest_even, F32.split.
  replace (0 <=? e) with false by (symmetry; apply Z.leb_gt; lia).
  assert (Hd : 0 < 2 ^ (- e)) by (apply Z.pow_pos_nonneg; lia).
  pose proof (Z.div_mod (Zpos m) (2 ^ (- e)) ltac:(lia)) as Hdm.
  pose proof (Z.mod_pos_bound (Zpos m) (2 ^ (- e)) Hd) as Hr.
  assert (0 ≤ Zpos m / 2 ^ (- e)) by (apply Z.div_pos; lia).
  set (q := Zpos m / 2 ^ (- e)) in *. set (r := Zpos m mod 2 ^ (- e)) in *.
  set (d := 2 ^ (- e)) in *.
  destruct (Z.compare_spec (2 * r) d); [destruct (Z.even q)| |]; split; nia.
Qed.

Lemma mag_nearest_even_le m e N :
  e < 0 → 0 ≤ N → Zpos m ≤ N * 2 ^ (- e) → F32.mag_nearest_even m e ≤ N.
Proof.
  intros He HN Hm. unfold F32.mag_nearest_even, F32.split.
  replace (0 <=? e) with false by (symmetry; apply Z.leb_gt; lia).
  assert (Hd : 0 < 2 ^ (- e)) by (apply Z.pow_pos_nonneg; lia).
  pose proof (Z.div_mod (Zpos m) (2 ^ (- e)) ltac:(lia)) as Hdm.
  pose proof (Z.mod_pos_bound (Zpos m) (2 ^ (- e)) Hd) as Hr.
  set (q := Zpos m / 2 ^ (- e)) in *. set (r := Zpos m mod 2 ^ (- e)) in *.
  set (d := 2 ^ (- e)) in *.
  assert (q ≤ N) by nia.
  destruct (Z.compare_spec (2 * r) d); [destruct (Z.even q)| |]; nia.
Qed.

(** [q] is an integer nearest to the value of the float [a]. *)
Definition nearestInt (a q : Z) : Prop :=
  match F32.of_bits a with
  | S754_zero _ => q = 0
  | S754_finite s m e =>
      if 0 <=? e then q = F32.signed s (Zpos m * 2 ^ e)
      else 2 * Z.abs (F32.signed s (Zpos m) - q * 2 ^ (- e)) ≤ 2 ^ (- e)
  | _ => True
  end.

Definition f32_255 : Z := Eval vm_compute in F32.of_Z 255.

Lemma finite_below_255 m e :
  SFltb (S754_finite false m e) (S754_finite false 16711680 (-16)) = true →
  e < -16 ∨ (e = -16 ∧ Zpos m < 16711680).
Proof.
  unfold SFltb, SFcompare.
  destruct (Z.compare_spec e (-16)); [|intros; lia|done].
  rewrite Pos.compare_cont_spec.
  destruct (Pos.compare_spec m 16711680); cbn [Pos.switch_Eq]; try done.
  intros _. right. split; [done | by apply Pos2Z.pos_lt_pos].
Qed.

(** The float store path of an 8-bit plane: clamp, then round. *)
Lemma clamp_round_255 (f : Z) :
  let c := fmin (fmax f (cast_float 0)) (cast_float 255) in
  0 ≤ RoundInt c ≤ 255 ∧ nearestInt c (RoundInt c).
Proof.
  change (cast_float 0) with 0. change (cast_float 255) with f32_255.
  assert (Hzero : let c := fmin 0 f32_255 in
                  0 ≤ RoundInt c ≤ 255 ∧ nearestInt c (RoundInt c)).
  { vm_compute. split; [split; discriminate | reflexivity]. }
  assert (Hmax : let c := f32_255 in
                 0 ≤ RoundInt c ≤ 255 ∧ nearestInt c (RoundInt c)).
  { vm_compute. split; [split; discriminate | discriminate]. }
  assert (Hg : fmax f 0 = 0 ∨
               (fmax f 0 = f ∧
                (F32.of_bits f = S754_infinity false ∨
                 ∃ m e, F32.of_bits f = S754_finite false m e))).
  { unfold fmax, F32.ltb. change (F32.of_bits 0) with (S754_zero false).
    destruct (F32.of_bits f) as [s|s| |s m e]; cbn [SFltb SFcompare];
      try destruct s; eauto 6. }
  destruct Hg as [-> | [-> [HX | (m & e & HX)]]]; [exact Hzero | |].
  - (* an infinity *)
    unfold fmin, F32.ltb. rewrite HX.
    change (F32.of_bits f32_255) with (S754_finite false 16711680 (-16)).
    cbn [SFltb SFcompare]. exact Hmax.
  - (* a finite value *)
    unfold fmin, F32.ltb. rewrite HX.
    change (F32.of_bits f32_255) with (S754_finite false 16711680 (-16)).
    pose proof (of_bits_mantissa _ _ _ _ HX) as Hm.
    assert (Hlt : e < -16 ∨ (e = -16 ∧ Zpos m < 16711680) →
                  let c := f in 0 ≤ RoundInt c ≤ 255 ∧ nearestInt c (RoundInt c)).
    { intros Hlt. cbn zeta.
      assert (He : e < 0) by lia.
      assert (Hle : Zpos m ≤ 255 * 2 ^ (- e)).
      { destruct Hlt as [Hlt | [-> Hlt]]; [|change (2 ^ (- -16)) with 65536; lia].
        assert (2 ^ 17 ≤ 2 ^ (- e)) by (apply Z.pow_le_mono_r; lia).
        change (2 ^ 17) with 131072 in *. change (2 ^ 24) with 16777216 in *. lia. }
      pose proof (mag_nearest_even_spec m e He) as [Hq0 Hnear].
      pose proof (mag_nearest_even_le m e 255 He ltac:(lia) Hle) as Hq1.
      assert (HR : RoundInt f = F32.mag_nearest_even m e).
      { unfold RoundInt, F32.to_Z_nearest. rewrite HX. cbn [F32.signed F32.int_or_indefinite].
        unfold INT_MIN, INT_MAX.
        replace (- 2 ^ 31 <=? _) with true by (symmetry; apply Z.leb_le; lia).
        replace (_ <=? 2 ^ 31 - 1) with true by (symmetry; apply Z.leb_le; lia).
        done. }
      rewrite HR. split; [lia|].
      unfold nearestInt. rewrite HX.
      replace (0 <=? e) with false by (symmetry; apply Z.leb_gt; lia).
      done. }
    destruct (SFltb _ _) eqn:Hb; [apply Hlt; by apply finite_below_255 | exact Hmax].
Qed.

(** [m * 2^e < N], on the integers. *)
Definition magnitude_below (m : positive) (e N : Z) : bool :=
  if 0 <=? e then Zpos m * 2 ^ e <? N else Zpos m <? N * 2 ^ (- e).

(** A decoded finite value is in canonical form: the exponent is at least
    that of the subnormals, and above it the mantissa has its leading bit. *)
Lemma of_bits_canonical b s m e :
  F32.of_bits b = S754_finite s m e →
  -149 ≤ e ∧ (-149 < e → 2 ^ 23 ≤ Zpos m).
Proof.
  unfold F32.of_bits.
  assert (Hm : 0 ≤ Z.land b (2 ^ 23 - 1)) by (apply Z.land_nonneg; right; lia).
  assert (He : 0 ≤ Z.land (Z.shiftr b 23) 255) by (apply Z.land_nonneg; right; lia).
  destruct (_ =? 0) eqn:E0.
  - destruct (Z.land b (2 ^ 23 - 1)); try done. intros [= _ _ <-]. lia.
  - apply Z.eqb_neq in E0.
    destruct (_ =? 255); [by destruct (_ =? 0)|].
    destruct (Z.land b (2 ^ 23 - 1) + 2 ^ 23) eqn:E; try done.
    intros [= _ <- <-]. lia.
Qed.

Lemma ltb_255_below m e :
  -149 ≤ e → (-149 < e → 2 ^ 23 ≤ Zpos m) → Zpos m < 2 ^ 24 →
  SFltb (S754_finite false m e) (S754_finite false 16711680 (-16))
    = magnitude_below m e 255.
Proof.
  intros He Hn Hm. unfold SFltb, SFcompare, magnitude_below.
  change (2 ^ 23) with 8388608 in Hn. change (2 ^ 24) with 16777216 in Hm.
  destruct (Z.compare_spec e (-16)) as [-> | Hlt | Hgt].
  - change (0 <=? -16) with false. change (255 * 2 ^ (- -16)) with 16711680.
    rewrite Pos.compare_cont_spec.
    destruct (Pos.compare_spec m 16711680) as [-> | Hc | Hc]; cbn [Pos.switch_Eq].
    + reflexivity.
    + symmetry. apply Z.ltb_lt. by apply Pos2Z.pos_lt_pos.
    + symmetry. apply Z.ltb_ge. apply Pos2Z.pos_lt_pos in Hc. lia.
  - replace (0 <=? e) with false by (symmetry; apply Z.leb_gt; lia).
    symmetry. apply Z.ltb_lt.
    assert (2 ^ 17 ≤ 2 ^ (- e)) by (apply Z.pow_le_mono_r; lia).
    change (2 ^ 17) with 131072 in *. lia.
  - specialize (Hn ltac:(lia)). symmetry.
    destruct (0 <=? e) eqn:E0.
    + apply Z.leb_le in E0. apply Z.ltb_ge.
      assert (1 ≤ 2 ^ e) by (apply (Z.pow_le_mono_r 2 0 e); lia). nia.
    + apply Z.leb_gt in E0. apply Z.ltb_ge.
      assert (2 ^ (- e) ≤ 2 ^ 15) by (apply Z.pow_le_mono_r; lia).
      change (2 ^ 15) with 32768 in *. lia.
Qed.

Lemma round_nearest_below f m e :
  F32.of_bits f = S754_finite false m e →
  magnitude_below m e 255 = true →
  nearestInt f (RoundInt f).
Proof.
  intros HX Hb.
  pose proof (of_bits_canonical _ _ _ _ HX) as [He Hn].
  pose proof (of_bits_mantissa _ _ _ _ HX) as Hm.
  change (2 ^ 23) with 8388608 in Hn. change (2 ^ 24) with 16777216 in Hm.
  unfold magnitude_below in Hb.
  destruct (0 <=? e) eqn:E0.
  { apply Z.leb_le in E0. apply Z.ltb_lt in Hb. specialize (Hn ltac:(lia)).
    assert (1 ≤ 2 ^ e) by (apply (Z.pow_le_mono_r 2 0 e); lia). nia. }
  apply Z.leb_gt in E0. apply Z.ltb_lt in Hb.
  pose proof (mag_nearest_even_spec m e E0) as [Hq0 Hnear].
  pose proof (mag_nearest_even_le m e 255 E0 ltac:(lia) ltac:(lia)) as Hq1.
  assert (HR : RoundInt f = F32.mag_nearest_even m e).
  { unfold RoundInt, F32.to_Z_nearest. rewrite HX. cbn [F32.signed F32.int_or_indefinite].
    unfold INT_MIN, INT_MAX.
    replace (- 2 ^ 31 <=? _) with true by (symmetry; apply Z.leb_le; lia).
    replace (_ <=? 2 ^ 31 - 1) with true by (symmetry; apply Z.leb_le; lia).
    done. }
  rewrite HR. unfold nearestInt. rewrite HX.
  replace (0 <=? e) with false by (symmetry; apply Z.leb_gt; lia).
  exact Hnear.
Qed.

(** What the float store path of an 8-bit plane writes, read against the
    value itself: nothing below zero, nothing above 255, and in between an
    integer nearest to the value.  A NaN is stored as 0. *)
Lemma clamp_round_cases (f : Z) :
  let q := RoundInt (fmin (fmax f (cast_float 0)) (cast_float 255)) in
  match F32.of_bits f with
  | S754_finite false m e =>
      if magnitude_below m e 255 then q = RoundInt f ∧ nearestInt f q else q = 255
  | S754_infinity false => q = 255
  | _ => q = 0
  end.
Proof.
  change (cast_float 0) with 0. change (cast_float 255) with f32_255. cbv zeta.
  assert (Hzero : RoundInt (fmin 0 f32_255) = 0) by (vm_compute; reflexivity).
  assert (Hmax : RoundInt f32_255 = 255) by (vm_compute; reflexivity).
  destruct (F32.of_bits f) as [s|s| |s m e] eqn:HX.
  - replace (fmax f 0) with 0; [by destruct s|].
    unfold fmax, F32.ltb. rewrite HX. change (F32.of_bits 0) with (S754_zero false).
    by destruct s.
  - destruct s.
    + replace (fmax f 0) with 0; [done|].
      unfold fmax, F32.ltb. by rewrite HX.
    + replace (fmin (fmax f 0) f32_255) with f32_255; [done|].
      unfold fmin, fmax, F32.ltb. rewrite HX.
      change (F32.of_bits 0) with (S754_zero false). cbn [SFltb SFcompare].
      by rewrite HX.
  - replace (fmax f 0) with 0; [done|].
    unfold fmax, F32.ltb. by rewrite HX.
  - destruct s.
    + replace (fmax f 0) with 0; [done|].
      unfold fmax, F32.ltb. by rewrite HX.
    + replace (fmax f 0) with f.
      2:{ unfold fmax, F32.ltb. by rewrite HX. }
      pose proof (of_bits_canonical _ _ _ _ HX) as [He Hn].
      pose proof (of_bits_mantissa _ _ _ _ HX) as Hm.
      pose proof (ltb_255_below m e He Hn Hm) as Hc.
      unfold fmin, F32.ltb. rewrite HX.
      change (F32.of_bits f32_255) with (S754_finite false 16711680 (-16)).
      rewrite Hc.
      destruct (magnitude_below m e 255) eqn:Hb; [|exact Hmax].
      split; [reflexivity | by apply (round_nearest_below f m e)].
Qed.

(** ** The clamped store of an 8-bit plane *)

Lemma lowerStore_8bit fmt res :
  sampleType fmt = stInteger → bitsPerSample fmt = 8 → bytesPerSample fmt = 1 →
  lowerStore fmt res =
    Ok (Some (fun st =>
      (match v res with
       | VFloat rf => RoundInt (fmin (fmax (rf st) (cast_float 0)) (cast_float 255))
       | VInt ri => Z.min (Z.max (ri st) 0) 255
       end mod 2 ^ 16) mod 2 ^ 8)).
Proof.
  intros Hs Hb HB. unfold lowerStore. rewrite Hs, Hb, HB.
  change (wrap32 (wrap32 (Z.shiftl 1 8) - 1)) with 255.
  change (1 =? 1) with true. cbv iota.
  by destruct (v res).
Qed.

(** The lowered body of [x 2 *] on an 8-bit clip with integer arithmetic. *)
Definition body_x_2_mul : State -> Z :=
  fun st => (Z.min (Z.max (imul (load_sample 0 1 st) 2) 0) 255 mod 2 ^ 16) mod 2 ^ 8.

Lemma compile_x_2_mul h rr :
  compileExpr h rr "x 2 *" clip8 [clip8] 1 1 =
    Ok (mkCompiled (procPlane (Some body_x_2_mul)) []).
Proof.
  rewrite (compileExpr_unfold h rr "x 2 *" clip8 [clip8] 1 1
             (mkContext "x 2 *" ["x"; "2"; "*"]%string
                [opi MEM_LOAD 0; opf CONSTANT f32_two; op0 MUL] clip8 [clip8] 1 1)
             [opi MEM_LOAD 0; opf CONSTANT f32_two; op0 MUL] ∅ (Some body_x_2_mul));
    [by rewrite propAccessOf_empty | reflexivity ..].
Qed.

Lemma load_sample_pixel srcs cs i bytes c r :
  load_sample i bytes (pixelState srcs cs c r) = srcs i c r mod 2 ^ (8 * bytes).
Proof.
  unfold load_sample, pixelState, laneState. cbn [wptrs x y lane].
  replace (i + 1 - 1) with i by lia.
  replace (8 * (c / 8) + c mod 8) with c; [done|].
  apply Z.div_mod. lia.
Qed.

Definition f32_half : Z := 0x3f000000.

(** The lowered body of [x 0.5 *] on an 8-bit clip: a float product, stored
    through the float path. *)
Definition body_x_half_mul : State -> Z :=
  fun st =>
    (RoundInt (fmin (fmax (F32.mul (F32.of_Z (load_sample 0 1 st)) f32_half)
                       (cast_float 0)) (cast_float 255)) mod 2 ^ 16) mod 2 ^ 8.

Lemma compile_x_half_mul h rr :
  ∃ body,
    compileExpr h rr "x 0.5 *" clip8 [clip8] 1 1
      = Ok (mkCompiled (procPlane (Some body)) []) ∧
    ∀ st, body st = body_x_half_mul st.
Proof.
  set (ctx := mkContext "x 0.5 *" ["x"; "0.5"; "*"]%string
                [opi MEM_LOAD 0; opf CONSTANT f32_half; op0 MUL] clip8 [clip8] 1 1).
  assert (Hb : ∃ body, buildOneIter h rr ctx = Ok (Some body) ∧
                 ∀ st, body st = body_x_half_mul st).
  { unfold buildOneIter.
    change (ops ctx) with [opi MEM_LOAD 0; opf CONSTANT f32_half; op0 MUL].
    change (tokens ctx) with ["x"; "0.5"; "*"]%string.
    change (format (vo ctx)) with (Some gray8).
    cbn [lowerOps hd tl].
    rewrite (lowerOp_mem_load h rr ctx "x" (opi MEM_LOAD 0) [] clip8 gray8);
      [| reflexivity | by vm_compute | reflexivity | reflexivity | by left].
    cbn [mbind Outcome_bind app].
    rewrite lower_constant by reflexivity. cbn [mbind Outcome_bind app].
    replace (F32.eqb (imm_f (opf CONSTANT f32_half))
               (cast_float (cast_int (imm_f (opf CONSTANT f32_half))))) with false
      by (vm_compute; reflexivity).
    cbv iota.
    eexists. split; [reflexivity|].
    intros st. cbv beta. cbn [v Value_FloatV].
    change (wrap32 (wrap32 (Z.shiftl 1 (bitsPerSample gray8)) - 1)) with 255.
    unfold body_x_half_mul, map2, IntToFloat, map1. cbv beta. reflexivity. }
  destruct Hb as (body & Hb & Hpt). exists body. split; [|exact Hpt].
  rewrite (compileExpr_unfold h rr "x 0.5 *" clip8 [clip8] 1 1 ctx
             [opi MEM_LOAD 0; opf CONSTANT f32_half; op0 MUL] ∅ (Some body));
    [by rewrite propAccessOf_empty | vm_compute; reflexivity | reflexivity | exact Hb].
Qed.

(** The lowered body of [x 2 *] on an 8-bit clip with integer arithmetic
    switched off: the sample and the constant are converted, the product is
    a float one. *)
Definition body_x_2_mul_float : State -> Z :=
  fun st =>
    (RoundInt (fmin (fmax (F32.mul (F32.of_Z (load_sample 0 1 st)) (F32.of_Z 2))
                       (cast_float 0)) (cast_float 255)) mod 2 ^ 16) mod 2 ^ 8.

Lemma compile_x_2_mul_float h rr :
  ∃ body,
    compileExpr h rr "x 2 *" clip8 [clip8] 1 0
      = Ok (mkCompiled (procPlane (Some body)) []) ∧
    ∀ st, body st = body_x_2_mul_float st.
Proof.
  set (ctx := mkContext "x 2 *" ["x"; "2"; "*"]%string
                [opi MEM_LOAD 0; opf CONSTANT f32_two; op0 MUL] clip8 [clip8] 1 0).
  assert (Hb : ∃ body, buildOneIter h rr ctx = Ok (Some body) ∧
                 ∀ st, body st = body_x_2_mul_float st).
  { unfold buildOneIter.
    change (ops ctx) with [opi MEM_LOAD 0; opf CONSTANT f32_two; op0 MUL].
    change (tokens ctx) with ["x"; "2"; "*"]%string.
    change (format (vo ctx)) with (Some gray8).
    cbn [lowerOps hd tl].
    rewrite (lowerOp_mem_load h rr ctx "x" (opi MEM_LOAD 0) [] clip8 gray8);
      [| reflexivity | by vm_compute | reflexivity | reflexivity | by left].
    cbn [mbind Outcome_bind app].
    rewrite lower_constant by reflexivity. cbn [mbind Outcome_bind app].
    replace (F32.eqb (imm_f (opf CONSTANT f32_two))
               (cast_float (cast_int (imm_f (opf CONSTANT f32_two))))) with true
      by (vm_compute; reflexivity).
    cbv iota. change (cast_int (imm_f (opf CONSTANT f32_two))) with 2.
    eexists. split; [reflexivity|].
    intros st. cbv beta. cbn [v Value_FloatV].
    change (wrap32 (wrap32 (Z.shiftl 1 (bitsPerSample gray8)) - 1)) with 255.
    unfold body_x_2_mul_float, map2, IntToFloat, map1. cbv beta. reflexivity. }
  destruct Hb as (body & Hb & Hpt). exists body. split; [|exact Hpt].
  rewrite (compileExpr_unfold h rr "x 2 *" clip8 [clip8] 1 0 ctx
             [opi MEM_LOAD 0; opf CONSTANT f32_two; op0 MUL] ∅ (Some body));
    [by rewrite propAccessOf_empty | vm_compute; reflexivity | reflexivity | exact Hb].
Qed.

(** C9: on an 8-bit integer output the residual value is clamped to
    [0, 255] before the store.  An integer value is stored as the nearest
    bound when it is outside and as itself inside.  A float value is stored
    as 0 when it is negative, a zero or a NaN, as 255 when it is 255 or
    more, and otherwise as the value itself rounded to a nearest integer.
    On the 8-bit pixels 0, 64, 128, 255, [x 2 *] stores 0, 128, 255, 255,
    with integer arithmetic enabled and, through the float path, with it
    disabled; [x 0.5 *] stores 0, 32, 64, 128. *)
Theorem clamped_store :
  (∀ fmt res,
     sampleType fmt = stInteger → bitsPerSample fmt = 8 → bytesPerSample fmt = 1 →
     ∃ body,
       lowerStore fmt res = Ok (Some body) ∧
       ∀ st,
         0 ≤ body st ≤ 255 ∧
         match v res with
         | VInt ri => body st = Z.min (Z.max (ri st) 0) 255
         | VFloat rf =>
             match F32.of_bits (rf st) with
             | S754_finite false m e =>
                 if magnitude_below m e 255
                 then body st = RoundInt (rf st) ∧ nearestInt (rf st) (body st)
                 else body st = 255
             | S754_infinity false => body st = 255
             | _ => body st = 0
             end
         end) ∧
  (∀ h rr srcs out cs,
     srcs 0 0 0 = 0 → srcs 0 1 0 = 64 → srcs 0 2 0 = 128 → srcs 0 3 0 = 255 →
     (∃ c,
        compileExpr h rr "x 2 *" clip8 [clip8] 1 1 = Ok c ∧
        (λ col, routine c out srcs cs 4 1 col 0) <$> [0; 1; 2; 3] = [0; 128; 255; 255]) ∧
     (∃ c,
        compileExpr h rr "x 2 *" clip8 [clip8] 1 0 = Ok c ∧
        (λ col, routine c out srcs cs 4 1 col 0) <$> [0; 1; 2; 3] = [0; 128; 255; 255]) ∧
     (∃ c,
        compileExpr h rr "x 0.5 *" clip8 [clip8] 1 1 = Ok c ∧
        (λ col, routine c out srcs cs 4 1 col 0) <$> [0; 1; 2; 3] = [0; 32; 64; 128])).
Proof.
  split.
  - intros fmt res Hs Hb HB. eexists. split; [by apply lowerStore_8bit|].
    intros st. destruct (v res) as [ri|rf].
    + assert (0 ≤ Z.min (Z.max (ri st) 0) 255 ≤ 255) as Hr by lia.
      rewrite (Z.mod_small _ (2 ^ 16)) by lia. rewrite Z.mod_small by lia.
      split; [exact Hr | reflexivity].
    + pose proof (clamp_round_255 (rf st)) as Hc. cbv zeta in Hc.
      destruct Hc as [Hr _].
      pose proof (clamp_round_cases (rf st)) as Hq. cbv zeta in Hq.
      rewrite (Z.mod_small _ (2 ^ 16)) by lia. rewrite Z.mod_small by lia.
      split; [exact Hr | exact Hq].
  - intros h rr srcs out cs H0 H1 H2 H3. split; [|split].
    + eexists. split; [apply compile_x_2_mul|].
      cbn [routine fmap list_fmap].
      rewrite !procPlane_pixel by lia.
      unfold body_x_2_mul. rewrite !load_sample_pixel, H0, H1, H2, H3.
      reflexivity.
    + destruct (compile_x_2_mul_float h rr) as (body & Hcomp & Hpt).
      eexists. split; [exact Hcomp|].
      cbn [routine fmap list_fmap].
      rewrite !procPlane_pixel by lia. rewrite !Hpt.
      unfold body_x_2_mul_float. rewrite !load_sample_pixel, H0, H1, H2, H3.
      vm_compute. reflexivity.
    + destruct (compile_x_half_mul h rr) as (body & Hcomp & Hpt).
      eexists. split; [exact Hcomp|].
      cbn [routine fmap list_fmap].
      rewrite !procPlane_pixel by lia. rewrite !Hpt.
      unfold body_x_half_mul. rewrite !load_sample_pixel, H0, H1, H2, H3.
      vm_compute. reflexivity.
Qed.

Definition f32_300 : Z := Eval vm_compute in F32.of_Z 300.

Lemma clamped_store_witness :
  (∃ body,
     lowerStore gray8 (Value_FloatV (fun _ => f32_300)) = Ok (Some body) ∧
     ∀ st, 0 ≤ body st ≤ 255 ∧ body st = 255) ∧
  (∃ c,
     compileExpr noHelper noReactor "x 2 *" clip8 [clip8] 1 1 = Ok c ∧
     (λ col, routine c (fun _ _ => 0)
               (fun _ col _ => nth (Z.to_nat col) [0; 64; 128; 255] 0) [7] 4 1 col 0)
       <$> [0; 1; 2; 3] = [0; 128; 255; 255]) ∧
  (∃ c,
     compileExpr noHelper noReactor "x 2 *" clip8 [clip8] 1 0 = Ok c ∧
     (λ col, routine c (fun _ _ => 0)
               (fun _ col _ => nth (Z.to_nat col) [0; 64; 128; 255] 0) [7] 4 1 col 0)
       <$> [0; 1; 2; 3] = [0; 128; 255; 255]) ∧
  (∃ c,
     compileExpr noHelper noReactor "x 0.5 *" clip8 [clip8] 1 1 = Ok c ∧
     (λ col, routine c (fun _ _ => 0)
               (fun _ col _ => nth (Z.to_nat col) [0; 64; 128; 255] 0) [7] 4 1 col 0)
       <$> [0; 1; 2; 3] = [0; 32; 64; 128]).
Proof.
  split.
  - exact (proj1 clamped_store gray8 (Value_FloatV (fun _ => f32_300))
             eq_refl eq_refl eq_refl).
  - apply (proj2 clamped_store noHelper noReactor
             (fun _ col _ => nth (Z.to_nat col) [0; 64; 128; 255] 0));
      reflexivity.
Defined.

(** ** Round trip of an integer clip through [x] *)

Fixpoint all_from (n : nat) (z : Z) (P : Z -> bool) : bool :=
  match n with
  | O => true
  | S n' => P z && all_from n' (z + 1) P
  end.

Lemma all_from_spec n : ∀ z P,
  all_from n z P = true → ∀ a, z ≤ a < z + Z.of_nat n → P a = true.
Proof.
  induction n as [|n IH]; intros z P H a Ha; [lia|].
  cbn [all_from] in H. apply andb_true_iff in H as [H1 H2].
  destruct (decide (a = z)) as [->|]; [done|].
  apply (IH (z + 1) P H2). lia.
Qed.

Definition float_store_ok (bits a : Z) : bool :=
  RoundInt (fmin (fmax (F32.of_Z a) (cast_float 0)) (cast_float (2 ^ bits - 1))) =? a.

Lemma float_store_checked :
  forallb (fun bits => all_from (Z.to_nat (2 ^ bits)) 0 (float_store_ok bits))
    [8; 9; 10; 11; 12; 13; 14; 15; 16] = true.
Proof. vm_cast_no_check (eq_refl true). Qed.

(** Every sample of an 8 to 16 bit format survives the conversion to float,
    the clamp and the rounding of the store. *)
Lemma float_store_roundtrip bits a :
  8 ≤ bits ≤ 16 → 0 ≤ a < 2 ^ bits →
  RoundInt (fmin (fmax (F32.of_Z a) (cast_float 0)) (cast_float (2 ^ bits - 1))) = a.
Proof.
  intros Hb Ha. apply Z.eqb_eq. change (float_store_ok bits a = true).
  pose proof float_store_checked as H.
  rewrite forallb_forall in H.
  assert (Hin : In bits [8; 9; 10; 11; 12; 13; 14; 15; 16]).
  { assert (bits = 8 ∨ bits = 9 ∨ bits = 10 ∨ bits = 11 ∨ bits = 12 ∨ bits = 13 ∨
            bits = 14 ∨ bits = 15 ∨ bits = 16) as Hc by lia.
    simpl. intuition. }
  apply (all_from_spec _ _ _ (H _ Hin)).
  rewrite Z2Nat.id by (apply Z.pow_nonneg; lia). lia.
Qed.

Lemma maxval_small bits :
  8 ≤ bits ≤ 16 → wrap32 (wrap32 (Z.shiftl 1 bits) - 1) = 2 ^ bits - 1.
Proof.
  intros Hb. rewrite Z.shiftl_1_l.
  assert (2 ^ 8 ≤ 2 ^ bits ≤ 2 ^ 16) by (split; apply Z.pow_le_mono_r; lia).
  change (2 ^ 8) with 256 in *. change (2 ^ 16) with 65536 in *.
  unfold wrap32. change (2 ^ 31) with 2147483648. change (2 ^ 32) with 4294967296.
  rewrite (Z.mod_small (2 ^ bits + _)) by lia.
  rewrite Z.mod_small by lia. lia.
Qed.

(** The store of a freshly loaded integer sample gives the sample back. *)
Lemma store_of_load (fmt : VSFormat) (ff : bool) :
  sampleType fmt = stInteger → inputFormatRejected fmt = false → hostFormat fmt →
  ∃ body,
    lowerStore fmt (loadedValue ff 0 fmt) = Ok (Some body) ∧
    ∀ srcs cs c r,
      0 ≤ srcs 0 c r < 2 ^ bitsPerSample fmt →
      body (pixelState srcs cs c r) = srcs 0 c r.
Proof.
  intros Hs Hok Hhost.
  pose proof (validated_bytes fmt Hok Hhost) as Hbytes. rewrite Hs in Hbytes.
  destruct Hhost as [Hbits HB].
  assert (Hb16 : bitsPerSample fmt ≤ 16).
  { unfold inputFormatRejected in Hok. rewrite Hs in Hok.
    apply orb_false_iff in Hok as [Hok _].
    rewrite bool_decide_eq_true_2, andb_true_r in Hok by done.
    by apply Z.ltb_ge in Hok. }
  assert (Hpow : 2 ^ bitsPerSample fmt ≤ 2 ^ (8 * bytesPerSample fmt) ≤ 2 ^ 16).
  { rewrite HB. destruct (bitsPerSample fmt <=? 8) eqn:E8.
    - apply Z.leb_le in E8. split; apply Z.pow_le_mono_r; lia.
    - destruct (bitsPerSample fmt <=? 16) eqn:E16; [|apply Z.leb_gt in E16; lia].
      split; apply Z.pow_le_mono_r; lia. }
  unfold lowerStore, loadedValue. rewrite Hs.
  rewrite maxval_small by lia.
  assert (Hcase : ∀ rounded : IntV,
            (∀ srcs cs c r, 0 ≤ srcs 0 c r < 2 ^ bitsPerSample fmt →
               rounded (pixelState srcs cs c r) = srcs 0 c r) →
            ∃ body,
              (if bytesPerSample fmt =? 1
               then Ok (Some (fun st => (rounded st mod 2 ^ 16) mod 2 ^ 8))
               else if bytesPerSample fmt =? 2
                    then Ok (Some (fun st => rounded st mod 2 ^ 16))
                    else Ok None) = Ok (Some body) ∧
              ∀ srcs cs c r, 0 ≤ srcs 0 c r < 2 ^ bitsPerSample fmt →
                body (pixelState srcs cs c r) = srcs 0 c r).
  { intros rounded Hr.
    destruct Hbytes as [HB1 | HB2].
    - rewrite HB1 in *. change (1 =? 1) with true. cbv iota.
      eexists. split; [done|]. intros srcs cs c r Hv. cbv beta. rewrite Hr by done.
      change (2 ^ (8 * 1)) with 256 in Hpow. change (2 ^ 16) with 65536 in *.
      rewrite (Z.mod_small _ 65536) by lia. rewrite Z.mod_small; lia.
    - rewrite HB2 in *. change (2 =? 1) with false. change (2 =? 2) with true.
      cbv iota. eexists. split; [done|]. intros srcs cs c r Hv. cbv beta.
      rewrite Hr by done. rewrite Z.mod_small; lia. }
  destruct ff; cbn [v Value_FloatV Value_IntV].
  - apply Hcase. intros srcs cs c r Hv. unfold IntToFloat, map1.
    rewrite load_sample_pixel. rewrite Z.mod_small by lia.
    apply float_store_roundtrip; lia.
  - apply Hcase. intros srcs cs c r Hv.
    rewrite load_sample_pixel. rewrite Z.mod_small by lia. lia.
Qed.

(** C5: for one integer clip of a validated, host-registered format and the
    expression [x], with the output in the format of the input and either
    setting of the integer option, the routine writes at every pixel the
    sample it read there, for every sample within the bit depth. *)
Theorem roundtrip_identity (h : Helper) (rr : Reactor) (fmt : VSFormat)
    (w0 h0 opt : Z) :
  sampleType fmt = stInteger → inputFormatRejected fmt = false → hostFormat fmt →
  ∃ c,
    compileExpr h rr "x" (mkVideoInfo (Some fmt) w0 h0)
      [mkVideoInfo (Some fmt) w0 h0] 1 opt = Ok c ∧
    ∀ out srcs cs w hh col row,
      0 ≤ col < w → 0 ≤ row < hh →
      0 ≤ srcs 0 col row < 2 ^ bitsPerSample fmt →
      routine c out srcs cs w hh col row = srcs 0 col row.
Proof.
  intros Hs Hok Hhost.
  set (info := mkVideoInfo (Some fmt) w0 h0).
  set (ctx := mkContext "x" ["x"%string] [opi MEM_LOAD 0] info [info] 1 opt).
  destruct (store_of_load fmt (forceFloat ctx) Hs Hok Hhost) as (body & Hbody & Hpix).
  pose proof (validated_bytes fmt Hok Hhost) as Hbytes.
  exists (mkCompiled (procPlane (Some body)) (propAccessOf ∅)). split.
  - apply (compileExpr_unfold h rr "x" info [info] 1 opt ctx [opi MEM_LOAD 0] ∅).
    + reflexivity.
    + reflexivity.
    + unfold buildOneIter.
      change (withOps ctx [opi MEM_LOAD 0]) with ctx.
      change (ops ctx) with [opi MEM_LOAD 0]. change (tokens ctx) with ["x"%string].
      cbn [lowerOps hd tl].
      rewrite (lowerOp_mem_load h rr ctx "x" (opi MEM_LOAD 0) [] info fmt);
        [| reflexivity | by vm_compute | reflexivity | reflexivity | exact Hbytes].
      cbn [mbind Outcome_bind app]. exact Hbody.
  - intros out srcs cs w hh col row Hc Hr Hv. cbn [routine].
    rewrite procPlane_pixel by lia. by apply Hpix.
Qed.

Lemma roundtrip_identity_witness :
  ∃ c,
    compileExpr noHelper noReactor "x" (mkVideoInfo (Some gray8) 4 1)
      [mkVideoInfo (Some gray8) 4 1] 1 0 = Ok c ∧
    ∀ out srcs cs w hh col row,
      0 ≤ col < w → 0 ≤ row < hh →
      0 ≤ srcs 0 col row < 2 ^ bitsPerSample gray8 →
      routine c out srcs cs w hh col row = srcs 0 col row.
Proof.
  apply (roundtrip_identity noHelper noReactor gray8 4 1 0).
  - reflexivity.
  - reflexivity.
  - unfold hostFormat. simpl. lia.
Defined.

(** ** The constants buffer of a frame *)

(** What [propValue] stores for a key: the first integer converted to
    [float], the first double converted to [float], NaN in every other
    case. *)
Definition slotOf (p : option VSProp) : Z :=
  match p with
  | Some (PropInt (i :: _)) => F32.of_Z i
  | Some (PropFloat (d :: _)) => double_to_float d
  | _ => nanf
  end.

Lemma propValue_slot (m : gmap string VSProp) (key : string) :
  propValue m key = slotOf (m !! key).
Proof.
  unfold propValue, propGetInt, propGetFloat, slotOf.
  destruct (m !! key) as [[l|l|]|]; try reflexivity.
  - destruct l as [|i l]; reflexivity.
  - destruct l as [|d l]; reflexivity.
Qed.

Lemma propValues_ok (src : list (gmap string VSProp)) (pas : list PropAccess) :
  (∀ pa, pa ∈ pas → 0 ≤ clip pa < Z.of_nat (length src)) →
  ∃ vals,
    propValues src pas = Ok vals ∧
    length vals = length pas ∧
    ∀ k pa m,
      pas !! k = Some pa → src !! Z.to_nat (clip pa) = Some m →
      vals !! k = Some (slotOf (m !! pa_name pa)).
Proof.
  induction pas as [|pa pas IH]; intros Hc.
  - exists []. by repeat split.
  - destruct IH as (vals & Hv & Hl & Hk).
    { intros pa' Hin. apply Hc. by apply elem_of_cons; right. }
    pose proof (Hc pa ltac:(by apply elem_of_cons; left)) as Hpa.
    destruct (lookup_lt_is_Some_2 src (Z.to_nat (clip pa)) ltac:(lia)) as [m Hm].
    exists (propValue m (pa_name pa) :: vals).
    cbn [propValues].
    replace (clip pa <? 0) with false by (symmetry; apply Z.ltb_ge; lia).
    rewrite Hm, Hv. cbn [mbind Outcome_bind]. split; [done|].
    split; [cbn [length]; by rewrite Hl|].
    intros [|k] pa' m' Hpa' Hm'; cbn in *.
    + injection Hpa' as <-. rewrite Hm in Hm'. injection Hm' as <-.
      by rewrite propValue_slot.
    + by eapply Hk.
Qed.

(** A frame property holding the integer 1 is stored as the float 1.0, whose
    bit pattern is not the one of the integer. *)
Lemma int_property_is_converted :
  frameConsts 7 [ {[ "p"%string := PropInt [1] ]} ] [mkPA 0 "p"] = Ok [7; 0x3f800000] ∧
  0x3f800000 ≠ u32 1.
Proof. split; [vm_compute; reflexivity | discriminate]. Qed.

(** C2, as the code has it: the constants buffer of frame [n] holds the
    frame number in slot 0 and, for the descriptor at index [k], slot
    [1 + k]: the property converted to [float] by value when the host holds
    an integer or a double under that name (an integer is rounded to the
    nearest float, not reinterpreted), and NaN when the key is missing, has
    another type or holds no element. *)
Theorem frame_consts (n : Z) (src : list (gmap string VSProp))
    (pas : list PropAccess) :
  (∀ pa, pa ∈ pas → 0 ≤ clip pa < Z.of_nat (length src)) →
  ∃ cs,
    frameConsts n src pas = Ok cs ∧
    length cs = S (length pas) ∧
    cs !! 0%nat = Some (u32 n) ∧
    ∀ k pa m,
      pas !! k = Some pa → src !! Z.to_nat (clip pa) = Some m →
      cs !! S k =
        Some match m !! pa_name pa with
             | Some (PropInt (i :: _)) => F32.of_Z i
             | Some (PropFloat (d :: _)) => double_to_float d
             | _ => nanf
             end.
Proof.
  intros Hc. destruct (propValues_ok src pas Hc) as (vals & Hv & Hl & Hk).
  exists (u32 n :: vals). unfold frameConsts. rewrite Hv.
  cbn [mbind Outcome_bind length]. rewrite Hl.
  split; [reflexivity|]. split; [reflexivity|]. split; [reflexivity|].
  intros k pa m Hpa Hm. exact (Hk k pa m Hpa Hm).
Qed.

Lemma frame_consts_witness :
  ∃ cs,
    frameConsts 7 [ {[ "p"%string := PropInt [1] ]} ] [mkPA 0 "p"] = Ok cs ∧
    length cs = 2%nat ∧
    cs !! 0%nat = Some (u32 7) ∧
    ∀ k pa m,
      [mkPA 0 "p"] !! k = Some pa →
      [ ({[ "p"%string := PropInt [1] ]} : gmap string VSProp) ] !! Z.to_nat (clip pa) = Some m →
      cs !! S k =
        Some match m !! pa_name pa with
             | Some (PropInt (i :: _)) => F32.of_Z i
             | Some (PropFloat (d :: _)) => double_to_float d
             | _ => nanf
             end.
Proof.
  apply (frame_consts 7 [ {[ "p"%string := PropInt [1] ]} ] [mkPA 0 "p"]).
  intros pa Hin. apply list_elem_of_singleton in Hin. subst pa. simpl. lia.
Defined.

(** ** The property-access resolver *)

(** A [LOAD_CONST] whose immediate is past the reserved [N], [X], [Y]. *)
Definition isPropLoad (op : ExprOp) : bool :=
  bool_decide (type op = LOAD_CONST) && (LoadConstType.LAST <=? imm_i op).

(** The [(clip-index, name)] pair of a property load. *)
Definition keyOf (op : ExprOp) : Z * string :=
  (imm_i op - LoadConstType.LAST, name op).

Definition descriptorOf (op : ExprOp) : PropAccess :=
  mkPA (keyOf op).1 (keyOf op).2.

(** The op after the rewrite, for the dense index [k]. *)
Definition rewritten (op : ExprOp) (k : nat) : ExprOp :=
  mkOp (type op) (u32 (LoadConstType.LAST + Z.of_nat k)) (name op).

(** The interning map is a bijection between its keys and the indices
    below its size. *)
Definition Dense (m : gmap (Z * string) nat) : Prop :=
  (∀ k1 k2 idx, m !! k1 = Some idx → m !! k2 = Some idx → k1 = k2) ∧
  (∀ idx, (idx < size m)%nat ↔ ∃ key, m !! key = Some idx).

Lemma Dense_empty : Dense ∅.
Proof.
  split.
  - intros k1 k2 idx H. by rewrite lookup_empty in H.
  - intros idx. rewrite map_size_empty. split; [lia|].
    intros [key H]. by rewrite lookup_empty in H.
Qed.

Lemma Dense_insert (m : gmap (Z * string) nat) key :
  Dense m → m !! key = None → Dense (<[key := size m]> m).
Proof.
  intros [Hinj Hsur] Hnone. split.
  - intros k1 k2 idx H1 H2.
    apply lookup_insert_Some in H1 as [[<- <-] | [Hn1 H1]];
      apply lookup_insert_Some in H2 as [[<- H2'] | [Hn2 H2]]; try done.
    + assert (size m < size m)%nat; [|lia]. apply Hsur. eauto.
    + assert (size m < size m)%nat; [|lia]. apply Hsur. subst. eauto.
    + by eapply Hinj.
  - intros idx. rewrite map_size_insert_None by done. split.
    + intros Hlt. destruct (decide (idx = size m)) as [->|Hne].
      * exists key. by rewrite lookup_insert_eq.
      * destruct (proj1 (Hsur idx) ltac:(lia)) as [k Hk]. exists k.
        rewrite lookup_insert_ne; [done|]. intros <-. congruence.
    + intros [k Hk]. apply lookup_insert_Some in Hk as [[_ <-] | [_ Hk]]; [lia|].
      assert (idx < size m)%nat; [|lia]. apply Hsur. eauto.
Qed.

Lemma resolveOp_spec (n : Z) (tok : string) (op : ExprOp) (m : gmap (Z * string) nat) :
  Dense m →
  match resolveOp n tok op m with
  | Ok (op', m') =>
      Dense m' ∧ m ⊆ m' ∧
      (∀ key k, m' !! key = Some k →
         m !! key = Some k ∨ (isPropLoad op = true ∧ key = keyOf op)) ∧
      if isPropLoad op
      then (keyOf op).1 < n ∧ ∃ k, m' !! keyOf op = Some k ∧ op' = rewritten op k
      else op' = op ∧ m' = m
  | Throw msg =>
      isPropLoad op = true ∧ n ≤ (keyOf op).1 ∧
      msg = ("reference to undefined clip: " +:+ tok)%string
  | _ => False
  end.
Proof.
  intros HD. unfold resolveOp, isPropLoad.
  destruct (bool_decide (type op = LOAD_CONST)) eqn:Ety; cbn [negb orb andb].
  2:{ split; [exact HD|]. split; [done|]. split; [by left|]. done. }
  destruct (imm_i op <? LoadConstType.LAST) eqn:Elt.
  { replace (LoadConstType.LAST <=? imm_i op) with false
      by (symmetry; apply Z.leb_gt; by apply Z.ltb_lt).
    split; [exact HD|]. split; [done|]. split; [by left|]. done. }
  replace (LoadConstType.LAST <=? imm_i op) with true
    by (symmetry; apply Z.leb_le; by apply Z.ltb_ge).
  fold (keyOf op).
  destruct (n <=? imm_i op - LoadConstType.LAST) eqn:En.
  { apply Z.leb_le in En. split; [done|]. split; [exact En|]. done. }
  apply Z.leb_gt in En.
  destruct (m !! keyOf op) as [k|] eqn:Hk.
  - rewrite Hk. split; [exact HD|]. split; [done|]. split; [by left|].
    split; [exact En|]. by exists k.
  - rewrite lookup_insert_eq.
    split; [by apply Dense_insert|]. split; [by apply insert_subseteq|]. split.
    + intros key k Hl. apply lookup_insert_Some in Hl as [[<- _] | [_ Hl]]; auto.
    + split; [exact En|]. exists (size m). by rewrite lookup_insert_eq.
Qed.

(** The token the loop has at hand for the op at index [i]. *)
Definition tokenAt (toks : list string) (i : nat) : string := hd ""%string (drop i toks).

Lemma resolveOps_spec (n : Z) (os : list ExprOp) : ∀ (toks : list string) (m : gmap (Z * string) nat),
  Dense m →
  match resolveOps n toks os m with
  | Ok (os', m') =>
      Dense m' ∧ m ⊆ m' ∧
      (∀ key k, m' !! key = Some k →
         m !! key = Some k ∨ ∃ op, op ∈ os ∧ isPropLoad op = true ∧ key = keyOf op) ∧
      Forall2 (fun op op' =>
                 if isPropLoad op
                 then (keyOf op).1 < n ∧
                      ∃ k, m' !! keyOf op = Some k ∧ op' = rewritten op k
                 else op' = op) os os'
  | Throw msg =>
      ∃ i op, os !! i = Some op ∧ isPropLoad op = true ∧ n ≤ (keyOf op).1 ∧
              msg = ("reference to undefined clip: " +:+ tokenAt toks i)%string
  | _ => False
  end.
Proof.
  induction os as [|op os IH]; intros toks m HD; cbn [resolveOps].
  - split; [exact HD|]. split; [done|]. split; [by left | constructor].
  - pose proof (resolveOp_spec n (hd ""%string toks) op m HD) as H1.
    destruct (resolveOp n (hd ""%string toks) op m) as [[op' m1]|msg| | | |];
      cbn [mbind Outcome_bind]; try done.
    + destruct H1 as (HD1 & Hsub1 & Hnew1 & Hop).
      pose proof (IH (tl toks) m1 HD1) as H2.
      destruct (resolveOps n (tl toks) os m1) as [[os' m2]|msg| | | |];
        cbn [mbind Outcome_bind]; try done.
      * destruct H2 as (HD2 & Hsub2 & Hnew2 & Hall).
        split; [done|]. split; [by etrans|]. split.
        -- intros key k Hk. destruct (Hnew2 key k Hk) as [Hm1 | (op2 & Hin & Hp & ->)].
           ++ destruct (Hnew1 key k Hm1) as [? | [Hp ->]]; [by left|].
              right. exists op. split; [by apply elem_of_cons; left | done].
           ++ right. exists op2. split; [by apply elem_of_cons; right | done].
        -- constructor; [|done].
           destruct (isPropLoad op); [|by destruct Hop].
           destruct Hop as (Hlt & k & Hk & ->). split; [done|]. exists k.
           split; [by eapply lookup_weaken | done].
      * destruct H2 as (i & op2 & Hi & Hp & Hn & ->).
        exists (S i), op2. split; [done|]. split; [done|]. split; [done|].
        unfold tokenAt. destruct toks as [|t toks']; cbn [tl drop]; [|reflexivity].
        by destruct i.
    + destruct H1 as (Hp & Hn & ->). exists 0%nat, op. by destruct toks.
Qed.

Lemma propAccessOf_fold (n : nat) (m : gmap (Z * string) nat) :
  let pa := map_fold (fun key idx pa => <[idx := mkPA key.1 key.2]> pa)
              (replicate n (mkPA 0 "")) m in
  length pa = n ∧
  ((∀ key k, m !! key = Some k → (k < n)%nat) →
   (∀ k1 k2 idx, m !! k1 = Some idx → m !! k2 = Some idx → k1 = k2) →
   ∀ key k, m !! key = Some k → pa !! k = Some (mkPA key.1 key.2)).
Proof.
  cbv zeta.
  apply (map_fold_weak_ind
    (fun (pa : list PropAccess) (m0 : gmap (Z * string) nat) =>
       length pa = n ∧
       ((∀ key k, m0 !! key = Some k → (k < n)%nat) →
        (∀ k1 k2 idx, m0 !! k1 = Some idx → m0 !! k2 = Some idx → k1 = k2) →
        ∀ key k, m0 !! key = Some k → pa !! k = Some (mkPA key.1 key.2)))).
  - split; [by rewrite length_replicate|]. intros _ _ key k H.
    by rewrite lookup_empty in H.
  - intros i x m0 r Hnone [Hlen IH]. split; [by rewrite length_insert|].
    intros Hb Hinj key k Hk.
    apply lookup_insert_Some in Hk as [[<- <-] | [Hne Hk]].
    + apply list_lookup_insert_eq. rewrite Hlen. apply (Hb i). by rewrite lookup_insert_eq.
    + assert (k ≠ x).
      { intros ->. apply Hne. apply (Hinj i key x).
        - by rewrite lookup_insert_eq.
        - by rewrite lookup_insert_ne. }
      rewrite list_lookup_insert_ne by done.
      apply IH; [| |done].
      * intros key' k' H'. apply (Hb key'). rewrite lookup_insert_ne; [done|].
        intros <-. congruence.
      * intros k1 k2 idx H1 H2. apply (Hinj k1 k2 idx);
          (rewrite lookup_insert_ne; [done | intros <-; congruence]).
Qed.

Lemma propAccessOf_spec (m : gmap (Z * string) nat) :
  Dense m →
  length (propAccessOf m) = size m ∧
  (∀ key k, m !! key = Some k → propAccessOf m !! k = Some (mkPA key.1 key.2)) ∧
  (∀ k d, propAccessOf m !! k = Some d →
     ∃ key, m !! key = Some k ∧ d = mkPA key.1 key.2) ∧
  NoDup (propAccessOf m).
Proof.
  intros [Hinj Hsur].
  destruct (propAccessOf_fold (size m) m) as [Hlen Hfwd]. fold (propAccessOf m) in *.
  assert (Hfwd' : ∀ key k, m !! key = Some k →
            propAccessOf m !! k = Some (mkPA key.1 key.2)).
  { apply Hfwd; [|done]. intros key k Hk. apply Hsur. eauto. }
  assert (Hbwd : ∀ k d, propAccessOf m !! k = Some d →
            ∃ key, m !! key = Some k ∧ d = mkPA key.1 key.2).
  { intros k d Hk. apply lookup_lt_Some in Hk as Hlt. rewrite Hlen in Hlt.
    destruct (proj1 (Hsur k) Hlt) as [key Hkey].
    exists key. split; [done|]. apply Hfwd' in Hkey. congruence. }
  repeat split; try done.
  apply NoDup_alt. intros i j d Hi Hj.
  destruct (Hbwd i d Hi) as (k1 & Hk1 & ->).
  destruct (Hbwd j _ Hj) as (k2 & Hk2 & Heq).
  assert (k1 = k2) as -> by (destruct k1, k2; cbn in Heq; congruence).
  congruence.
Qed.

(** C8: the rewrite pass leaves every op that is not a property load as it
    is and gives every property load the immediate reserved-count plus a
    dense index [k], where the descriptor vector holds the op's
    [(clip, name)] pair at position [k]; two loads of one pair get the same
    immediate; the descriptor vector has no duplicate and no entry without a
    load.  A property load whose clip index is not below the input count
    makes the pass, and with it the compilation, fail with the
    undefined-clip error; without such a load the pass succeeds. *)
Theorem property_resolver (n : Z) (toks : list string) (os : list ExprOp) :
  (∀ os' m,
     resolveOps n toks os ∅ = Ok (os', m) →
     Forall2 (fun op op' =>
                if isPropLoad op
                then ∃ k, op' = rewritten op k ∧
                          propAccessOf m !! k = Some (descriptorOf op)
                else op' = op) os os' ∧
     (∀ i j op1 op2 op1' op2',
        os !! i = Some op1 → os !! j = Some op2 →
        isPropLoad op1 = true → isPropLoad op2 = true → keyOf op1 = keyOf op2 →
        os' !! i = Some op1' → os' !! j = Some op2' → imm op1' = imm op2') ∧
     NoDup (propAccessOf m) ∧
     (∀ k d, propAccessOf m !! k = Some d →
        ∃ op, op ∈ os ∧ isPropLoad op = true ∧ d = descriptorOf op)) ∧
  ((∃ op, op ∈ os ∧ isPropLoad op = true ∧ n ≤ (keyOf op).1) →
   ∃ tok, resolveOps n toks os ∅ = Throw ("reference to undefined clip: " +:+ tok)) ∧
  ((∀ op, op ∈ os → isPropLoad op = true → (keyOf op).1 < n) →
   ∃ os' m, resolveOps n toks os ∅ = Ok (os', m)) ∧
  (∀ h rr ctx,
     (∃ op, op ∈ ops ctx ∧ isPropLoad op = true ∧ numInputs ctx ≤ (keyOf op).1) →
     ∃ tok, compile h rr ctx = Throw ("reference to undefined clip: " +:+ tok)).
Proof.
  assert (Hfail : ∀ n' toks' os',
            (∃ op, op ∈ os' ∧ isPropLoad op = true ∧ n' ≤ (keyOf op).1) →
            ∃ tok, resolveOps n' toks' os' ∅
                   = Throw ("reference to undefined clip: " +:+ tok)).
  { intros n' toks' os' (op & Hin & Hp & Hn).
    pose proof (resolveOps_spec n' os' toks' ∅ Dense_empty) as H.
    destruct (resolveOps n' toks' os' ∅) as [[os2 m]|msg| | | |]; try done.
    - destruct H as (_ & _ & _ & Hall). exfalso.
      apply list_elem_of_lookup in Hin as [i Hi].
      destruct (Forall2_lookup_l _ _ _ _ _ Hall Hi) as (op' & _ & Hop).
      rewrite Hp in Hop. lia.
    - destruct H as (i & op2 & _ & _ & _ & ->). eauto. }
  split; [|split; [apply Hfail | split]].
  - intros os' m Hres.
    pose proof (resolveOps_spec n os toks ∅ Dense_empty) as H. rewrite Hres in H.
    destruct H as (HD & _ & Hnew & Hall).
    destruct (propAccessOf_spec m HD) as (Hlen & Hfwd & Hbwd & Hnd).
    assert (Hall' : Forall2 (fun op op' =>
               if isPropLoad op
               then ∃ k, op' = rewritten op k ∧
                         propAccessOf m !! k = Some (descriptorOf op)
               else op' = op) os os').
    { eapply Forall2_impl; [exact Hall|]. intros op op' Hop. cbv beta in *.
      destruct (isPropLoad op); [|done].
      destruct Hop as (_ & k & Hk & ->). exists k. split; [done|]. by apply Hfwd. }
    split; [exact Hall'|]. split; [|split; [exact Hnd|]].
    + intros i j op1 op2 op1' op2' Hi Hj Hp1 Hp2 Hkey Hi' Hj'.
      destruct (Forall2_lookup_l _ _ _ _ _ Hall' Hi) as (x1 & Hx1 & H1).
      destruct (Forall2_lookup_l _ _ _ _ _ Hall' Hj) as (x2 & Hx2 & H2).
      rewrite Hp1 in H1. rewrite Hp2 in H2.
      destruct H1 as (k1 & -> & Hk1). destruct H2 as (k2 & -> & Hk2).
      assert (k1 = k2) as ->.
      { eapply NoDup_lookup; [exact Hnd | exact Hk1 |].
        unfold descriptorOf. by rewrite Hkey. }
      rewrite Hi' in Hx1. rewrite Hj' in Hx2.
      injection Hx1 as ->. injection Hx2 as ->. reflexivity.
    + intros k d Hk. destruct (Hbwd k d Hk) as (key & Hkey & ->).
      destruct (Hnew key k Hkey) as [Hemp | (op & Hin & Hp & ->)].
      * by rewrite lookup_empty in Hemp.
      * exists op. by repeat split.
  - intros Hok.
    pose proof (resolveOps_spec n os toks ∅ Dense_empty) as H.
    destruct (resolveOps n toks os ∅) as [[os2 m]|msg| | | |]; try done; [by eauto|].
    destruct H as (i & op & Hi & Hp & Hn & _). exfalso.
    assert (op ∈ os) as Hin by (apply list_elem_of_lookup; eauto).
    specialize (Hok op Hin Hp). lia.
  - intros h rr ctx Hex.
    destruct (Hfail (numInputs ctx) (tokens ctx) (ops ctx) Hex) as [tok Htok].
    exists tok. unfold compile. by rewrite Htok.
Qed.

Lemma property_resolver_witness :
  ∃ os' m,
    resolveOps 2 ["x.a"; "y.b"; "x.a"]%string
      [mkOp LOAD_CONST 3 "a"; mkOp LOAD_CONST 4 "b"; mkOp LOAD_CONST 3 "a"] ∅
    = Ok (os', m).
Proof.
  destruct (property_resolver 2 ["x.a"; "y.b"; "x.a"]%string
              [mkOp LOAD_CONST 3 "a"; mkOp LOAD_CONST 4 "b"; mkOp LOAD_CONST 3 "a"])
    as (_ & _ & H & _).
  apply H. intros op Hin _.
  repeat (apply elem_of_cons in Hin as [-> | Hin]);
    [vm_compute; reflexivity .. | by apply elem_of_nil in Hin].
Defined.

(** * Further properties of the code *)

(** ** The tokenizer *)

Lemma chars_str (l : list ascii) : chars (str l) = l.
Proof. apply list_ascii_of_string_of_list_ascii. Qed.

Lemma str_chars (s : string) : str (chars s) = s.
Proof. apply string_of_list_ascii_of_string. Qed.

Lemma chars_app (a b : string) : chars (a +:+ b) = chars a ++ chars b.
Proof.
  unfold chars. induction a as [|c a IH]; [done|].
  simpl. f_equal. exact IH.
Qed.

(** A well-formed token: not empty, no white space inside. *)
Definition tokenLike (l : list ascii) : Prop :=
  l ≠ [] ∧ Forall (fun c => isspace c = false) l.

Lemma tokenize_from_tokens (s cur : list ascii) :
  Forall (fun c => isspace c = false) cur →
  Forall (fun tok => tokenLike (chars tok)) (tokenize_from cur s).
Proof.
  revert cur. induction s as [|c s IH]; intros cur Hcur; cbn [tokenize_from].
  - destruct cur as [|c0 cur]; [constructor|].
    constructor; [|constructor]. rewrite chars_str. split.
    + intros Hnil. apply (f_equal length) in Hnil. rewrite length_rev in Hnil. done.
    + by apply Forall_rev.
  - destruct (isspace c) eqn:Hc.
    + destruct cur as [|c0 cur]; [by apply IH|].
      constructor; [|by apply IH]. rewrite chars_str. split.
      * intros Hnil. apply (f_equal length) in Hnil. rewrite length_rev in Hnil. done.
      * by apply Forall_rev.
    + apply IH. by constructor.
Qed.

Lemma tokenize_from_sep (s1 s2 cur : list ascii) (c : ascii) :
  isspace c = true →
  tokenize_from cur (s1 ++ c :: s2) = tokenize_from cur s1 ++ tokenize_from [] s2.
Proof.
  intros Hc. revert cur. induction s1 as [|a s1 IH]; intros cur; cbn [app tokenize_from].
  - rewrite Hc. by destruct cur.
  - destruct (isspace a); [|apply IH].
    destruct cur; rewrite IH; done.
Qed.

Lemma tokenize_from_word (l cur : list ascii) :
  Forall (fun c => isspace c = false) l →
  tokenize_from cur l = match rev cur ++ l with [] => [] | w => [str w] end.
Proof.
  revert cur. induction l as [|a l IH]; intros cur Hl; cbn [tokenize_from].
  - rewrite app_nil_r. destruct cur as [|c0 cur]; [done|].
    destruct (rev (c0 :: cur)) eqn:E; [|done].
    apply (f_equal length) in E. rewrite length_rev in E. done.
  - apply Forall_cons in Hl as [Ha Hl]. rewrite Ha, IH by done.
    cbn [rev]. by rewrite <- app_assoc.
Qed.

(** X1: every token is non-empty and free of white space. *)
Theorem tokenize_tokens (e : string) :
  Forall (fun tok => tok ≠ ""%string ∧ Forall (fun c => isspace c = false) (chars tok))
         (tokenize e).
Proof.
  eapply Forall_impl; [apply (tokenize_from_tokens (chars e) []); constructor|].
  intros tok [Hne Hws]. split; [|done]. intros ->. by apply Hne.
Qed.

(** X2: a white-space character splits the source: the tokens of the whole
    are the tokens of the left part followed by those of the right part. *)
Theorem tokenize_split (a b : string) (c : ascii) :
  isspace c = true →
  tokenize (a +:+ String c b) = tokenize a ++ tokenize b.
Proof.
  intros Hc. unfold tokenize. rewrite chars_app. cbn [chars list_ascii_of_string].
  by apply tokenize_from_sep.
Qed.

Lemma tokenize_split_witness :
  tokenize ("x 2" +:+ String " " "*") = tokenize "x 2" ++ tokenize "*".
Proof. apply tokenize_split. reflexivity. Defined.

(** The source text of a token sequence: the tokens separated by single
    spaces. *)
Fixpoint unwords (toks : list string) : string :=
  match toks with
  | [] => ""
  | [t] => t
  | t :: toks' => t +:+ String " " (unwords toks')
  end.

(** X3: tokenizing the tokens joined by spaces gives the tokens back. *)
Theorem tokenize_unwords (toks : list string) :
  Forall (fun tok => tokenLike (chars tok)) toks →
  tokenize (unwords toks) = toks.
Proof.
  assert (Hword : ∀ t, tokenLike (chars t) → tokenize t = [t]).
  { intros t [Hne Hws]. unfold tokenize. rewrite tokenize_from_word by done.
    cbn [rev app]. destruct (chars t) eqn:E; [done|]. by rewrite <- E, str_chars. }
  induction 1 as [|t toks Ht Htoks IH]; [done|].
  destruct toks as [|t2 toks]; [by apply Hword|].
  change (unwords (t :: t2 :: toks)) with (t +:+ String " " (unwords (t2 :: toks))).
  unfold tokenize in *. rewrite chars_app. cbn [chars list_ascii_of_string].
  rewrite tokenize_from_sep by done.
  fold (chars (unwords (t2 :: toks))). rewrite IH.
  specialize (Hword t Ht). unfold tokenize in Hword. by rewrite Hword.
Qed.

Lemma tokenize_unwords_witness :
  tokenize (unwords ["x"; "y._Gain"; "*"]%string) = ["x"; "y._Gain"; "*"]%string.
Proof.
  apply tokenize_unwords.
  repeat constructor; try discriminate.
Defined.

(** X4: a source made of white space only has no token, and then the
    compiler reports an empty expression. *)
Theorem blank_source_is_empty (h : Helper) (rr : Reactor) (e : string)
    (o : VSVideoInfo) (i : list VSVideoInfo) (n opt : Z) :
  Forall (fun c => isspace c = true) (chars e) →
  tokenize e = [] ∧
  compileExpr h rr e o i n opt = Throw ("empty expression: " +:+ e).
Proof.
  intros Hws.
  assert (Htok : tokenize e = []).
  { unfold tokenize. induction Hws as [|c l Hc _ IH]; [done|].
    cbn [tokenize_from]. by rewrite Hc. }
  split; [done|].
  unfold compileExpr, newContext. rewrite Htok. reflexivity.
Qed.

Lemma blank_source_is_empty_witness :
  tokenize "  " = [] ∧
  compileExpr noHelper noReactor "  " clip8 [clip8] 1 1 = Throw ("empty expression: " +:+ "  ").
Proof.
  apply blank_source_is_empty. repeat constructor.
Defined.

(** ** The token decoder *)

Lemma code_inj (c1 c2 : ascii) : code c1 = code c2 → c1 = c2.
Proof.
  unfold code. intros H. apply Nat2Z.inj in H.
  rewrite <- (ascii_nat_embedding c1), <- (ascii_nat_embedding c2). by rewrite H.
Qed.

(** X5: a single lower-case letter decodes to a memory load of a clip index
    below 26, and different letters name different clips. *)
Theorem decode_clip_letter :
  (∀ c, is_lower c = true →
     decodeToken (String c "") = Ok (opi MEM_LOAD (clip_of_letter c)) ∧
     0 ≤ clip_of_letter c < MAX_EXPR_INPUTS) ∧
  (∀ c1 c2, is_lower c1 = true → is_lower c2 = true →
     clip_of_letter c1 = clip_of_letter c2 → c1 = c2).
Proof.
  split.
  - intros c Hc.
    destruct c as [[] [] [] [] [] [] [] []];
      try (vm_compute in Hc; discriminate Hc);
      (split; [vm_compute; reflexivity | vm_compute; split; [discriminate | reflexivity]]).
  - intros c1 c2 H1 H2 Heq. apply code_inj.
    unfold is_lower, clip_of_letter in *.
    apply andb_true_iff in H1 as [H1a H1b]. apply andb_true_iff in H2 as [H2a H2b].
    apply Z.leb_le in H1a, H1b, H2a, H2b.
    destruct (120 <=? code c1) eqn:E1; destruct (120 <=? code c2) eqn:E2;
      rewrite ?Z.leb_le, ?Z.leb_gt in *; lia.
Qed.

Lemma decode_clip_letter_witness :
  decodeToken (String "y" "") = Ok (opi MEM_LOAD (clip_of_letter "y")) ∧
  0 ≤ clip_of_letter "y" < MAX_EXPR_INPUTS.
Proof. apply (proj1 decode_clip_letter). reflexivity. Defined.

(** X6: a lower-case letter, a dot and a non-empty name decode to a property
    load: the immediate is the reserved count plus the clip index of the
    letter, and the name is kept as written. *)
Theorem decode_property (c : ascii) (nm : string) :
  is_lower c = true → nm ≠ ""%string →
  decodeToken (String c (String "." nm)) =
    Ok (mkOp LOAD_CONST (u32 (LoadConstType.LAST + clip_of_letter c)) nm).
Proof.
  intros Hc Hnm. destruct nm as [|n0 nm]; [done|]. clear Hnm.
  unfold decodeToken.
  assert (Hstr : str (drop 2 (chars (String c (String "." (String n0 nm)))))
                 = String n0 nm).
  { cbn [chars list_ascii_of_string drop]. apply (str_chars (String n0 nm)). }
  rewrite Hstr.
  destruct c as [[] [] [] [] [] [] [] []];
    try (vm_compute in Hc; discriminate Hc); reflexivity.
Qed.

Lemma decode_property_witness :
  decodeToken (String "y" (String "." "_Gain")) =
    Ok (mkOp LOAD_CONST (u32 (LoadConstType.LAST + clip_of_letter "y")) "_Gain").
Proof. apply decode_property; [reflexivity | discriminate]. Defined.

Lemma isdigit_not_space (c : ascii) : isdigit c = true → isspace c = false.
Proof.
  unfold isdigit, isspace. intros H. apply andb_true_iff in H as [H1 H2].
  apply Z.leb_le in H1, H2.
  apply orb_false_iff. split; [apply Z.eqb_neq; lia|].
  apply andb_false_iff. right. apply Z.leb_gt. lia.
Qed.

Lemma span_digits_all (d : list ascii) :
  Forall (fun c => isdigit c = true) d → span_digits d = (d, []).
Proof.
  induction 1 as [|c d Hc _ IH]; [done|]. cbn [span_digits]. by rewrite Hc, IH.
Qed.

Lemma digits_value_nonneg (d : list ascii) :
  Forall (fun c => isdigit c = true) d → 0 ≤ digits_value d.
Proof.
  intros H. unfold digits_value.
  assert (Hgen : ∀ a, 0 ≤ a →
            0 ≤ fold_left (fun acc c => 10 * acc + (code c - 48)) d a).
  { induction H as [|c d Hc _ IH]; intros a Ha; [done|]. cbn [fold_left].
    apply IH. unfold isdigit in Hc. apply andb_true_iff in Hc as [Hc _].
    apply Z.leb_le in Hc. lia. }
  apply Hgen. lia.
Qed.

Lemma stoi_digits (d : list ascii) :
  d ≠ [] → Forall (fun c => isdigit c = true) d → digits_value d ≤ INT_MAX →
  stoi d = Some (digits_value d, length d).
Proof.
  intros Hne Hd Hmax. unfold stoi.
  destruct d as [|c d]; [done|].
  apply Forall_cons in Hd as Hd'. destruct Hd' as [Hc _].
  pose proof (isdigit_not_space c Hc) as Hsp.
  cbn [skip_spaces]. rewrite Hsp.
  unfold take_sign. unfold isdigit in Hc. apply andb_true_iff in Hc as [Hc1 Hc2].
  apply Z.leb_le in Hc1, Hc2.
  replace (code c =? 45) with false by (symmetry; apply Z.eqb_neq; lia).
  replace (code c =? 43) with false by (symmetry; apply Z.eqb_neq; lia).
  rewrite (span_digits_all (c :: d) Hd).
  pose proof (digits_value_nonneg (c :: d) Hd) as Hnn.
  cbn [F32.signed]. unfold INT_MIN.
  replace (- 2 ^ 31 <=? digits_value (c :: d)) with true by (symmetry; apply Z.leb_le; lia).
  replace (digits_value (c :: d) <=? INT_MAX) with true by (symmetry; by apply Z.leb_le).
  reflexivity.
Qed.

(** X7: [dup] or [swap] followed by a decimal number that fits an [int]
    decodes to the stack helper with that number as immediate. *)
Theorem decode_dup_swap (d : list ascii) :
  d ≠ [] → Forall (fun c => isdigit c = true) d → digits_value d ≤ INT_MAX →
  decodeToken (str (chars "dup" ++ d)) = Ok (opi DUP (digits_value d)) ∧
  decodeToken (str (chars "swap" ++ d)) = Ok (opi SWAP (digits_value d)).
Proof.
  intros Hne Hd Hmax.
  pose proof (stoi_digits d Hne Hd Hmax) as Hstoi.
  pose proof (digits_value_nonneg d Hd) as Hnn.
  destruct d as [|d0 d]; [done|].
  split; unfold decodeToken; rewrite chars_str.
  - change (find_simple (str (chars "dup" ++ d0 :: d)) simple) with (@None ExprOp).
    cbn [chars list_ascii_of_string app length Nat.eqb andb nth take str
         string_of_list_ascii].
    change (String.eqb "dup" "dup") with true. cbn [orb].
    change (code "d" =? 100) with true. cbn [drop].
    rewrite Hstoi.
    replace (digits_value (d0 :: d) <? 0) with false by (symmetry; apply Z.ltb_ge; lia).
    cbn [orb length]. by rewrite Nat.eqb_refl.
  - change (find_simple (str (chars "swap" ++ d0 :: d)) simple) with (@None ExprOp).
    cbn [chars list_ascii_of_string app length Nat.eqb andb nth take str
         string_of_list_ascii].
    change (String.eqb "swa" "dup") with false.
    change (String.eqb "swap" "swap") with true. cbn [orb].
    change (code "s" =? 100) with false. cbn [drop].
    rewrite Hstoi.
    replace (digits_value (d0 :: d) <? 0) with false by (symmetry; apply Z.ltb_ge; lia).
    cbn [orb length]. by rewrite Nat.eqb_refl.
Qed.

Lemma decode_dup_swap_witness :
  decodeToken (str (chars "dup" ++ chars "12")) = Ok (opi DUP (digits_value (chars "12"))) ∧
  decodeToken (str (chars "swap" ++ chars "12")) = Ok (opi SWAP (digits_value (chars "12"))).
Proof.
  apply decode_dup_swap.
  - discriminate.
  - repeat constructor.
  - vm_compute. discriminate.
Defined.

(** X8: [dup] or [swap] followed by text that does not start a number is
    refused as an illegal token. *)
Theorem decode_dup_swap_illegal (c : ascii) (rest : list ascii) :
  isdigit c = false → isspace c = false → code c ≠ 43 → code c ≠ 45 →
  decodeToken (str (chars "dup" ++ c :: rest))
    = Throw ("illegal token: " +:+ str (chars "dup" ++ c :: rest)) ∧
  decodeToken (str (chars "swap" ++ c :: rest))
    = Throw ("illegal token: " +:+ str (chars "swap" ++ c :: rest)).
Proof.
  intros Hd Hs Hp Hm.
  assert (Hstoi : stoi (c :: rest) = None).
  { unfold stoi. cbn [skip_spaces]. rewrite Hs. unfold take_sign.
    replace (code c =? 45) with false by (symmetry; by apply Z.eqb_neq).
    replace (code c =? 43) with false by (symmetry; by apply Z.eqb_neq).
    cbn [span_digits]. by rewrite Hd. }
  split; unfold decodeToken; rewrite chars_str.
  - change (find_simple (str (chars "dup" ++ c :: rest)) simple) with (@None ExprOp).
    cbn [chars list_ascii_of_string app length Nat.eqb andb nth take].
    change (String.eqb (str ["d"; "u"; "p"]%char) "dup") with true. cbn [orb].
    change (code "d" =? 100) with true. cbn [drop].
    by rewrite Hstoi.
  - change (find_simple (str (chars "swap" ++ c :: rest)) simple) with (@None ExprOp).
    cbn [chars list_ascii_of_string app length Nat.eqb andb nth take].
    change (String.eqb (str ["s"; "w"; "a"]%char) "dup") with false.
    change (String.eqb (str ["s"; "w"; "a"; "p"]%char) "swap") with true. cbn [orb].
    change (code "s" =? 100) with false. cbn [drop].
    by rewrite Hstoi.
Qed.

Lemma decode_dup_swap_illegal_witness :
  decodeToken (str (chars "dup" ++ "e"%char :: []))
    = Throw ("illegal token: " +:+ str (chars "dup" ++ "e"%char :: [])) ∧
  decodeToken (str (chars "swap" ++ "e"%char :: []))
    = Throw ("illegal token: " +:+ str (chars "swap" ++ "e"%char :: [])).
Proof.
  apply decode_dup_swap_illegal; try reflexivity; vm_compute; discriminate.
Defined.

(** ** The value stack during lowering *)

Lemma LOAD1_inv (stack stack' : list Value) (a : Value) :
  LOAD1 stack = Ok (a, stack') → stack = stack' ++ [a].
Proof.
  unfold LOAD1. destruct (last stack) as [b|] eqn:E; [|done].
  apply last_Some in E as [l ->]. intros [= -> <-].
  rewrite length_app. cbn [length].
  replace (length l + 1 - 1)%nat with (length l) by lia.
  by rewrite take_app_length.
Qed.

Lemma LOAD2_inv (stack stack' : list Value) (l r : Value) :
  LOAD2 stack = Ok (l, r, stack') → stack = stack' ++ [l; r].
Proof.
  unfold LOAD2.
  destruct (LOAD1 stack) as [[r0 s1]| | | | |] eqn:E1; cbn [mbind Outcome_bind]; try done.
  destruct (LOAD1 s1) as [[l0 s2]| | | | |] eqn:E2; cbn [mbind Outcome_bind]; try done.
  intros [= -> -> <-]. apply LOAD1_inv in E1, E2. subst. by rewrite <- app_assoc.
Qed.

Lemma LOAD1_short (stack : list Value) :
  (1 ≤ length stack)%nat → ∃ s a, stack = s ++ [a].
Proof.
  intros H. destruct (last stack) as [a|] eqn:E.
  - apply last_Some in E as [s ->]. eauto.
  - apply last_None in E. subst. cbn in H. lia.
Qed.

Lemma LOAD2_short (stack : list Value) :
  (2 ≤ length stack)%nat → ∃ s l r, stack = s ++ [l; r].
Proof.
  intros H. destruct (LOAD1_short stack ltac:(lia)) as (s1 & r & ->).
  rewrite length_app in H. cbn in H.
  destruct (LOAD1_short s1 ltac:(lia)) as (s & l & ->).
  exists s, l, r. by rewrite <- app_assoc.
Qed.

Lemma BINARYOP_inv opf opi ff stack stack' :
  BINARYOP opf opi ff stack = Ok stack' →
  ∃ s l r b, stack = s ++ [l; r] ∧ stack' = s ++ [b] ∧
             isFloat b = isFloat l || isFloat r || ff.
Proof.
  unfold BINARYOP.
  destruct (LOAD2 stack) as [[[l r] s]| | | | |] eqn:E; cbn [mbind Outcome_bind]; try done.
  apply LOAD2_inv in E. unfold OUT.
  destruct (v l) eqn:El, (v r) eqn:Er; try destruct ff; intros [= <-];
    eexists s, l, r, _; (split; [done|]); (split; [done|]);
    unfold isFloat; rewrite El, Er; reflexivity.
Qed.

Lemma UNARYOP_inv opf opi ff stack stack' :
  UNARYOP opf opi ff stack = Ok stack' →
  ∃ s a b, stack = s ++ [a] ∧ stack' = s ++ [b] ∧ isFloat b = isFloat a || ff.
Proof.
  unfold UNARYOP.
  destruct (LOAD1 stack) as [[a s]| | | | |] eqn:E; cbn [mbind Outcome_bind]; try done.
  apply LOAD1_inv in E. unfold OUT.
  destruct (v a) eqn:Ea; try destruct ff; intros [= <-];
    eexists s, a, _; (split; [done|]); (split; [done|]);
    unfold isFloat; rewrite Ea; reflexivity.
Qed.

Lemma UNARYOPF_inv opf stack stack' :
  UNARYOPF opf stack = Ok stack' →
  ∃ s a b, stack = s ++ [a] ∧ stack' = s ++ [b] ∧ isFloat b = true.
Proof.
  unfold UNARYOPF.
  destruct (LOAD1 stack) as [[a s]| | | | |] eqn:E; cbn [mbind Outcome_bind]; try done.
  apply LOAD1_inv in E. intros [= <-]. by eexists s, a, _.
Qed.

Lemma LOGICOP_inv op stack stack' :
  LOGICOP op stack = Ok stack' →
  ∃ s l r b, stack = s ++ [l; r] ∧ stack' = s ++ [b] ∧
             isFloat b = false ∧ isFloat l = isFloat r.
Proof.
  unfold LOGICOP.
  destruct (LOAD2 stack) as [[[l r] s]| | | | |] eqn:E; cbn [mbind Outcome_bind]; try done.
  apply LOAD2_inv in E. unfold isFloat, Value_f, Value_i, OUT.
  destruct (v l) eqn:El, (v r) eqn:Er; cbn [mbind Outcome_bind]; try done;
    intros [= <-]; eexists s, l, r, _; (split; [done|]); (split; [reflexivity|]);
    unfold isFloat; rewrite El, Er; done.
Qed.

Lemma lowerCmp_inv op stack stack' :
  lowerCmp op stack = Ok stack' →
  ∃ s l r b, stack = s ++ [l; r] ∧ stack' = s ++ [b] ∧ isFloat b = false.
Proof.
  unfold lowerCmp.
  destruct (LOAD2 stack) as [[[l r] s]| | | | |] eqn:E; cbn [mbind Outcome_bind]; try done.
  apply LOAD2_inv in E. unfold OUT.
  destruct (isFloat l || isFloat r).
  - destruct (comparisonOf (imm_u op)); cbn [mbind Outcome_bind]; try done.
    intros [= <-]. by eexists s, l, r, _.
  - destruct (Value_i l); cbn [mbind Outcome_bind]; try done.
    destruct (Value_i r); cbn [mbind Outcome_bind]; try done.
    destruct (comparisonOf (imm_u op)); cbn [mbind Outcome_bind]; try done.
    intros [= <-]. by eexists s, l, r, _.
Qed.

Lemma lowerNot_inv stack stack' :
  lowerNot stack = Ok stack' →
  ∃ s a b, stack = s ++ [a] ∧ stack' = s ++ [b] ∧ isFloat b = false.
Proof.
  unfold lowerNot.
  destruct (LOAD1 stack) as [[a s]| | | | |] eqn:E; cbn [mbind Outcome_bind]; try done.
  apply LOAD1_inv in E. intros [= <-]. by eexists s, a, _.
Qed.

Lemma lowerTernary_inv stack stack' :
  lowerTernary stack = Ok stack' →
  ∃ s c t f b, stack = s ++ [c; t; f] ∧ stack' = s ++ [b] ∧
               isFloat b = isFloat t || isFloat f.
Proof.
  unfold lowerTernary.
  destruct (LOAD2 stack) as [[[t f] s1]| | | | |] eqn:E; cbn [mbind Outcome_bind]; try done.
  destruct (LOAD1 s1) as [[c s]| | | | |] eqn:E1; cbn [mbind Outcome_bind]; try done.
  apply LOAD2_inv in E. apply LOAD1_inv in E1. subst. unfold OUT.
  destruct (isFloat t || isFloat f) eqn:Ef.
  - intros [= <-]. eexists s, c, t, f, _. split; [by rewrite <- app_assoc|]. done.
  - destruct (Value_i t); cbn [mbind Outcome_bind]; try done.
    destruct (Value_i f); cbn [mbind Outcome_bind]; try done.
    intros [= <-]. eexists s, c, t, f, _. split; [by rewrite <- app_assoc|]. done.
Qed.

Lemma lowerPow_inv h rr stack stack' :
  lowerPow h rr stack = Ok stack' →
  ∃ s l r b, stack = s ++ [l; r] ∧ stack' = s ++ [b] ∧ isFloat b = true.
Proof.
  unfold lowerPow.
  destruct (LOAD2 stack) as [[[l r] s]| | | | |] eqn:E; cbn [mbind Outcome_bind]; try done.
  apply LOAD2_inv in E. unfold OUT.
  destruct (v r); [destruct (IsConstant rr i)|]; intros [= <-]; by eexists s, l, r, _.
Qed.

Lemma lowerMemLoad_inv ff i fmt stack stack' :
  lowerMemLoad ff i fmt stack = Ok stack' → ∃ b, stack' = stack ++ [b].
Proof.
  unfold lowerMemLoad, OUT. destruct (sampleType fmt).
  - destruct (bytesPerSample fmt =? 1); [|destruct (bytesPerSample fmt =? 2)];
      cbn [mbind Outcome_bind]; try done; destruct ff; intros [= <-]; eauto.
  - destruct (bytesPerSample fmt =? 2); [done|].
    destruct (bytesPerSample fmt =? 4); cbn [mbind Outcome_bind]; try done.
    intros [= <-]; eauto.
Qed.

(** The change of the stack depth an op stands for. *)
Definition stackEffect (t : ExprOpType) : Z :=
  match t with
  | SWAP => 0
  | _ => 1 - Z.of_nat (numOperands t)
  end.

Lemma lowerOp_depth h rr ctx tok op stack stack' :
  lowerOp h rr ctx tok op stack = Ok stack' →
  (numOperands (type op) ≤ length stack)%nat ∧
  Z.of_nat (length stack') = Z.of_nat (length stack) + stackEffect (type op) ∧
  (type op = MEM_LOAD → imm_i op < numInputs ctx) ∧
  (type op = DUP ∨ type op = SWAP → imm_u op < Z.of_nat (length stack)).
Proof.
  unfold lowerOp.
  destruct (bool_decide (type op = MEM_LOAD) && (numInputs ctx <=? imm_i op)) eqn:E1;
    [done|].
  destruct ((bool_decide (type op = DUP) || bool_decide (type op = SWAP))
            && (Z.of_nat (length stack) <=? imm_u op)) eqn:E2; [done|].
  destruct (length stack <? numOperands (type op))%nat eqn:E3; [done|].
  apply Nat.ltb_ge in E3. intros H. split; [done|].
  assert (Hmem : type op = MEM_LOAD → imm_i op < numInputs ctx).
  { intros Hty. rewrite Hty in E1. cbn in E1. by apply Z.leb_gt in E1. }
  assert (Hds : type op = DUP ∨ type op = SWAP → imm_u op < Z.of_nat (length stack)).
  { intros [Hty | Hty]; rewrite Hty in E2; cbn in E2; by apply Z.leb_gt in E2. }
  split; [|done]. clear E1 E2 Hmem Hds.
  unfold stackEffect.
  destruct (type op); cbn [numOperands] in *;
    repeat match goal with
    | H : BINARYOP _ _ _ _ = Ok _ |- _ =>
        apply BINARYOP_inv in H as (s & l & r & b & -> & -> & _)
    | H : UNARYOP _ _ _ _ = Ok _ |- _ =>
        apply UNARYOP_inv in H as (s & a & b & -> & -> & _)
    | H : UNARYOPF _ _ = Ok _ |- _ =>
        apply UNARYOPF_inv in H as (s & a & b & -> & -> & _)
    | H : LOGICOP _ _ = Ok _ |- _ =>
        apply LOGICOP_inv in H as (s & l & r & b & -> & -> & _)
    | H : lowerCmp _ _ = Ok _ |- _ =>
        apply lowerCmp_inv in H as (s & l & r & b & -> & -> & _)
    | H : lowerNot _ = Ok _ |- _ =>
        apply lowerNot_inv in H as (s & a & b & -> & -> & _)
    | H : lowerTernary _ = Ok _ |- _ =>
        apply lowerTernary_inv in H as (s & c & t & f & b & -> & -> & _)
    | H : lowerPow _ _ _ = Ok _ |- _ =>
        apply lowerPow_inv in H as (s & l & r & b & -> & -> & _)
    end;
    rewrite ?length_app; cbn [length]; try lia.
  - (* MEM_LOAD *)
    destruct (imm_i op <? 0); [done|].
    destruct (vi ctx !! Z.to_nat (imm_i op)) as [info|]; [|done].
    destruct (format info) as [fmt|]; [|done].
    apply lowerMemLoad_inv in H as [b ->]. rewrite length_app. cbn. lia.
  - (* CONSTANT *)
    destruct (F32.eqb _ _); injection H as <-; unfold OUT; rewrite length_app; cbn; lia.
  - (* LOAD_CONST *)
    injection H as <-. unfold lowerLoadConst, OUT.
    repeat destruct (_ =? _); rewrite length_app; cbn; lia.
  - (* DUP *)
    destruct (stack !! _); [|done]. injection H as <-. unfold OUT.
    rewrite length_app. cbn. lia.
  - (* SWAP *)
    destruct (stack !! fromTop stack 0); [|done].
    destruct (stack !! fromTop stack (imm_u op)); [|done].
    injection H as <-. rewrite !length_insert. lia.
Qed.

Fixpoint totalEffect (os : list ExprOp) : Z :=
  match os with
  | [] => 0
  | op :: os' => stackEffect (type op) + totalEffect os'
  end.

Lemma lowerOps_depth h rr ctx os : ∀ toks stack stack',
  lowerOps h rr ctx toks os stack = Ok stack' →
  Z.of_nat (length stack') = Z.of_nat (length stack) + totalEffect os ∧
  Forall (fun op => type op = MEM_LOAD → imm_i op < numInputs ctx) os.
Proof.
  induction os as [|op os IH]; intros toks stack stack'; cbn [lowerOps totalEffect].
  - intros [= <-]. split; [lia | constructor].
  - destruct (lowerOp h rr ctx (hd ""%string toks) op stack) as [s1| | | | |] eqn:E;
      cbn [mbind Outcome_bind]; try done.
    intros H. apply lowerOp_depth in E as (_ & Hlen & Hmem & _).
    apply IH in H as [Hlen' Hall]. split; [lia | by constructor].
Qed.

(** X9: a lowering step that succeeds found at least as many values as the
    op takes, at least [N + 1] for [dup N] and [swap N], and changes the
    depth of the stack by one minus the number of operands ([swap] leaves it
    as it is). *)
Theorem lowering_stack_effect (h : Helper) (rr : Reactor) (ctx : Context)
    (tok : string) (op : ExprOp) (stack stack' : list Value) :
  lowerOp h rr ctx tok op stack = Ok stack' →
  (numOperands (type op) ≤ length stack)%nat ∧
  (type op = DUP ∨ type op = SWAP → imm_u op < Z.of_nat (length stack)) ∧
  Z.of_nat (length stack') = Z.of_nat (length stack) + stackEffect (type op).
Proof.
  intros H. apply lowerOp_depth in H as (H1 & H2 & _ & H4). done.
Qed.

Lemma lowering_stack_effect_witness :
  (numOperands (type (op0 ADD)) ≤ length [Value_int 1; Value_int 2])%nat ∧
  (type (op0 ADD) = DUP ∨ type (op0 ADD) = SWAP →
   imm_u (op0 ADD) < Z.of_nat (length [Value_int 1; Value_int 2])) ∧
  Z.of_nat (length [Value_IntV (map2 iadd (fun _ => 1) (fun _ => 2))])
    = Z.of_nat (length [Value_int 1; Value_int 2]) + stackEffect (type (op0 ADD)).
Proof.
  apply (lowering_stack_effect noHelper noReactor
           (mkContext "1 2 +" ["1"; "2"; "+"]%string [] clip8 [clip8] 1 1) "+").
  reflexivity.
Defined.

(** X10: with fewer values on the stack than the op takes, the step throws
    the insufficient-values error naming the token. *)
Theorem lowering_underflow (h : Helper) (rr : Reactor) (ctx : Context)
    (tok : string) (op : ExprOp) (stack : list Value) :
  (length stack < numOperands (type op))%nat →
  lowerOp h rr ctx tok op stack = Throw ("insufficient values on stack: " +:+ tok).
Proof.
  intros H. unfold lowerOp.
  assert (Hty : type op ≠ MEM_LOAD ∧ type op ≠ DUP ∧ type op ≠ SWAP).
  { repeat split; intros Hty; rewrite Hty in H; cbn in H; lia. }
  destruct Hty as (H1 & H2 & H3).
  rewrite !bool_decide_eq_false_2 by done. cbn [andb orb].
  by apply Nat.ltb_lt in H as ->.
Qed.

Lemma lowering_underflow_witness :
  lowerOp noHelper noReactor
    (mkContext "1 ?" ["1"; "?"]%string [] clip8 [clip8] 1 1) "?" (op0 TERNARY)
    [Value_int 1] = Throw ("insufficient values on stack: " +:+ "?").
Proof. apply lowering_underflow. cbn. lia. Defined.

(** ** What a successful compilation guarantees *)

Lemma rewrite_keeps_types (n : Z) (m : gmap (Z * string) nat) (os os' : list ExprOp) :
  Forall2 (fun op op' =>
             if isPropLoad op
             then (keyOf op).1 < n ∧ ∃ k, m !! keyOf op = Some k ∧ op' = rewritten op k
             else op' = op) os os' →
  totalEffect os' = totalEffect os ∧
  (Forall (fun op => type op = MEM_LOAD → imm_i op < n) os' →
   Forall (fun op => (type op = MEM_LOAD → imm_i op < n) ∧
                     (isPropLoad op = true → (keyOf op).1 < n)) os).
Proof.
  induction 1 as [|op op' os os' Hop _ [IH1 IH2]]; [by split; [|constructor]|].
  cbn [totalEffect].
  assert (Hty : type op' = type op).
  { destruct (isPropLoad op); [by destruct Hop as (_ & k & _ & ->) | by subst]. }
  split; [by rewrite Hty, IH1|].
  intros Hall. apply Forall_cons in Hall as [Hm Hall].
  constructor; [|by apply IH2]. split.
  - intros Hmem. destruct (isPropLoad op) eqn:Hp.
    + unfold isPropLoad in Hp. rewrite Hmem in Hp. done.
    + subst. by apply Hm.
  - intros Hp. rewrite Hp in Hop. by destruct Hop.
Qed.

Lemma compile_inv h rr ctx c :
  compile h rr ctx = Ok c →
  totalEffect (ops ctx) = 1 ∧
  Forall (fun op => (type op = MEM_LOAD → imm_i op < numInputs ctx) ∧
                    (isPropLoad op = true → (keyOf op).1 < numInputs ctx)) (ops ctx) ∧
  Forall (fun pa => 0 ≤ clip pa < numInputs ctx) (propAccess c).
Proof.
  unfold compile.
  pose proof (resolveOps_spec (numInputs ctx) (ops ctx) (tokens ctx) ∅ Dense_empty) as Hres.
  destruct (resolveOps (numInputs ctx) (tokens ctx) (ops ctx) ∅) as [[os m]| | | | |];
    cbn [mbind Outcome_bind]; try done.
  destruct Hres as (HD & _ & Hnew & Hall).
  destruct (buildOneIter h rr (withOps ctx os)) as [body| | | | |] eqn:Hb;
    cbn [mbind Outcome_bind]; try done.
  intros [= <-]. cbn [propAccess].
  unfold buildOneIter in Hb. cbn [ops tokens withOps] in Hb.
  destruct (lowerOps h rr (withOps ctx os) (tokens ctx) os []) as [stack| | | | |] eqn:Hl;
    cbn [mbind Outcome_bind] in Hb; try done.
  destruct stack as [|res [|? ?]]; try done.
  apply lowerOps_depth in Hl as [Hlen Hmem]. cbn in Hlen.
  destruct (rewrite_keeps_types _ _ _ _ Hall) as [Heff Hops].
  split; [lia|]. split; [by apply Hops|].
  destruct (propAccessOf_spec m HD) as (_ & _ & Hbwd & _).
  apply Forall_lookup. intros k d Hk.
  destruct (Hbwd k d Hk) as (key & Hkey & ->). cbn [clip].
  destruct (Hnew key k Hkey) as [Hemp | (op & Hin & Hp & ->)].
  { by rewrite lookup_empty in Hemp. }
  apply list_elem_of_lookup in Hin as [i Hi].
  destruct (Forall2_lookup_l _ _ _ _ _ Hall Hi) as (op' & _ & Hop).
  rewrite Hp in Hop. destruct Hop as [Hlt _].
  unfold isPropLoad in Hp. apply andb_true_iff in Hp as [_ Hp]. apply Z.leb_le in Hp.
  unfold keyOf in *. cbn [fst] in *. lia.
Qed.

(** X11: in an expression that compiles, the stack effects of the ops add up
    to exactly one value, every memory load names a clip below the input
    count, and so does every property load. *)
Theorem compiled_expression_invariants (h : Helper) (rr : Reactor)
    (ctx : Context) (c : Compiled) :
  compile h rr ctx = Ok c →
  totalEffect (ops ctx) = 1 ∧
  Forall (fun op => (type op = MEM_LOAD → imm_i op < numInputs ctx) ∧
                    (isPropLoad op = true → (keyOf op).1 < numInputs ctx)) (ops ctx).
Proof. intros H. apply compile_inv in H as (H1 & H2 & _). done. Qed.

Lemma compiled_expression_invariants_witness :
  totalEffect [opi MEM_LOAD 0; opf CONSTANT f32_two; op0 MUL] = 1 ∧
  Forall (fun op => (type op = MEM_LOAD → imm_i op < 1) ∧
                    (isPropLoad op = true → (keyOf op).1 < 1))
         [opi MEM_LOAD 0; opf CONSTANT f32_two; op0 MUL].
Proof.
  apply (compiled_expression_invariants noHelper noReactor
           (mkContext "x 2 *" ["x"; "2"; "*"]%string
              [opi MEM_LOAD 0; opf CONSTANT f32_two; op0 MUL] clip8 [clip8] 1 1)
           (mkCompiled (procPlane (Some body_x_2_mul)) [])).
  reflexivity.
Defined.



(** ** Stack helpers, typing and the logic of the lowered operators *)

Lemma u32_small (n : Z) : 0 ≤ n < 2 ^ 32 → u32 n = n.
Proof. intros H. unfold u32. by apply Z.mod_small. Qed.

Lemma wrap32_small (n : Z) : - 2 ^ 31 ≤ n < 2 ^ 31 → wrap32 n = n.
Proof.
  intros H. unfold wrap32. change (2 ^ 31) with 2147483648 in *.
  change (2 ^ 32) with 4294967296. rewrite Z.mod_small; lia.
Qed.

(** After the checks of the loop body, for an op that is neither a load of
    a clip nor a stack helper. *)
Ltac pass_checks Hty :=
  unfold lowerOp; rewrite Hty;
  rewrite !bool_decide_eq_false_2 by discriminate;
  cbn [andb orb numOperands];
  match goal with
  | |- context [(length ?s <? ?k)%nat] =>
      replace (length s <? k)%nat with false
        by (symmetry; apply Nat.ltb_ge; rewrite ?length_app; cbn [length]; lia)
  end.

(** X13: [dup N] pushes a copy of the value [N] places below the top. *)
Theorem dup_copies (h : Helper) (rr : Reactor) (ctx : Context) (tok : string)
    (n : Z) (s t : list Value) (a : Value) :
  0 ≤ n < 2 ^ 32 → Z.of_nat (length t) = n →
  lowerOp h rr ctx tok (opi DUP n) (s ++ a :: t) = Ok (s ++ a :: t ++ [a]).
Proof.
  intros Hn Ht. unfold lowerOp. cbn [type opi].
  change (imm_u (opi DUP n)) with (u32 n). rewrite u32_small by done.
  rewrite (bool_decide_eq_false_2 (DUP = MEM_LOAD)) by discriminate.
  rewrite (bool_decide_eq_true_2 (DUP = DUP)) by done.
  cbn [andb orb numOperands].
  replace (Z.of_nat (length (s ++ a :: t)) <=? n) with false
    by (symmetry; apply Z.leb_gt; rewrite length_app; cbn [length]; lia).
  replace (length (s ++ a :: t) <? 0)%nat with false by (symmetry; apply Nat.ltb_ge; lia).
  unfold fromTop.
  replace (length (s ++ a :: t) - 1 - Z.to_nat n)%nat with (length s)
    by (rewrite length_app; cbn [length]; lia).
  rewrite list_lookup_middle by done. unfold OUT.
  by rewrite <- app_assoc.
Qed.

Lemma dup_copies_witness :
  lowerOp noHelper noReactor
    (mkContext "" [] [] clip8 [clip8] 1 1) "dup1" (opi DUP 1)
    ([] ++ Value_int 5 :: [Value_int 6])
  = Ok ([] ++ Value_int 5 :: [Value_int 6] ++ [Value_int 5]).
Proof. apply dup_copies; [lia | reflexivity]. Defined.

(** X14: [swap N] exchanges the top with the value [N] places below it and
    touches nothing else; doing it twice restores the stack. *)
Theorem swap_exchanges (h : Helper) (rr : Reactor) (ctx : Context) (tok : string)
    (op : ExprOp) (stack stack' : list Value) :
  type op = SWAP →
  lowerOp h rr ctx tok op stack = Ok stack' →
  let i := fromTop stack 0 in
  let j := fromTop stack (imm_u op) in
  stack' !! i = stack !! j ∧ stack' !! j = stack !! i ∧
  (∀ k, k ≠ i → k ≠ j → stack' !! k = stack !! k) ∧
  lowerOp h rr ctx tok op stack' = Ok stack.
Proof.
  intros Hty H. cbv zeta. unfold lowerOp in *. rewrite Hty in *.
  rewrite (bool_decide_eq_false_2 (SWAP = MEM_LOAD)) in * by discriminate.
  rewrite (bool_decide_eq_false_2 (SWAP = DUP)) in * by discriminate.
  rewrite (bool_decide_eq_true_2 (SWAP = SWAP)) in * by done.
  cbn [andb orb numOperands] in *.
  destruct (Z.of_nat (length stack) <=? imm_u op) eqn:E; [done|].
  replace (length stack <? 0)%nat with false in H by (symmetry; apply Nat.ltb_ge; lia).
  destruct (stack !! fromTop stack 0) as [a|] eqn:Ha; [|done].
  destruct (stack !! fromTop stack (imm_u op)) as [b|] eqn:Hb; [|done].
  injection H as <-.
  set (i := fromTop stack 0) in *. set (j := fromTop stack (imm_u op)) in *.
  pose proof (lookup_lt_Some _ _ _ Ha) as Hi.
  pose proof (lookup_lt_Some _ _ _ Hb) as Hj.
  assert (Hlen : length (<[j:=a]> (<[i:=b]> stack)) = length stack)
    by by rewrite !length_insert.
  assert (Hi' : <[j:=a]> (<[i:=b]> stack) !! i = Some b).
  { destruct (decide (i = j)) as [Heq|Hne].
    - rewrite <- Heq in *. rewrite list_lookup_insert_eq by (by rewrite length_insert).
      congruence.
    - rewrite list_lookup_insert_ne by done. by rewrite list_lookup_insert_eq. }
  assert (Hj' : <[j:=a]> (<[i:=b]> stack) !! j = Some a).
  { rewrite list_lookup_insert_eq; [done | by rewrite length_insert]. }
  split; [congruence|]. split; [congruence|]. split.
  { intros k Hki Hkj. by rewrite !list_lookup_insert_ne. }
  rewrite Hlen, E.
  replace (length stack <? 0)%nat with false by (symmetry; apply Nat.ltb_ge; lia).
  unfold fromTop. rewrite Hlen. fold (fromTop stack 0). fold (fromTop stack (imm_u op)).
  fold i. fold j. rewrite Hi', Hj'. f_equal.
  apply list_eq. intros k.
  destruct (decide (k = j)) as [->|Hkj].
  - rewrite list_lookup_insert_eq by (by rewrite !length_insert). done.
  - rewrite (list_lookup_insert_ne _ j k) by done.
    destruct (decide (k = i)) as [->|Hki].
    + rewrite list_lookup_insert_eq by (by rewrite !length_insert). done.
    + by rewrite !list_lookup_insert_ne.
Qed.

Lemma swap_exchanges_witness :
  let stack := [Value_int 5; Value_int 6] in
  let stack' := [Value_int 6; Value_int 5] in
  let ctx := mkContext "" [] [] clip8 [clip8] 1 1 in
  let i := fromTop stack 0 in
  let j := fromTop stack (imm_u (opi SWAP 1)) in
  stack' !! i = stack !! j ∧ stack' !! j = stack !! i ∧
  (∀ k, k ≠ i → k ≠ j → stack' !! k = stack !! k) ∧
  lowerOp noHelper noReactor ctx "swap" (opi SWAP 1) stack' = Ok stack.
Proof.
  apply (swap_exchanges noHelper noReactor (mkContext "" [] [] clip8 [clip8] 1 1)
           "swap" (opi SWAP 1) [Value_int 5; Value_int 6] [Value_int 6; Value_int 5]);
    reflexivity.
Defined.

(** X15: the binary arithmetic operators always lower on two operands; the
    result is a float vector exactly when an operand is one, always for
    [/] and [%], and for [max] and [min] also when integer arithmetic is
    switched off. *)
Theorem binary_type_propagation (h : Helper) (rr : Reactor) (ctx : Context)
    (tok : string) (op : ExprOp) (s : list Value) (l r : Value) :
  type op ∈ [ADD; SUB; MUL; DIV; MOD; MAX; MIN] →
  ∃ b,
    lowerOp h rr ctx tok op (s ++ [l; r]) = Ok (s ++ [b]) ∧
    isFloat b = isFloat l || isFloat r ||
                match type op with
                | DIV | MOD => true
                | MAX | MIN => forceFloat ctx
                | _ => false
                end.
Proof.
  intros Hin.
  assert (Hbin : ∀ opf opi ff,
            ∃ b, BINARYOP opf opi ff (s ++ [l; r]) = Ok (s ++ [b]) ∧
                 isFloat b = isFloat l || isFloat r || ff).
  { intros opf opi ff. unfold BINARYOP. rewrite LOAD2_snoc. cbn [mbind Outcome_bind].
    unfold isFloat, OUT.
    destruct (v l), (v r); try destruct ff; eexists; split; reflexivity. }
  repeat (apply elem_of_cons in Hin as [Hty | Hin]); [..| by apply elem_of_nil in Hin];
    pass_checks Hty; apply Hbin.
Qed.

Lemma binary_type_propagation_witness :
  ∃ b,
    lowerOp noHelper noReactor (mkContext "" [] [] clip8 [clip8] 1 1) "/" (op0 DIV)
      ([] ++ [Value_int 1; Value_int 2]) = Ok ([] ++ [b]) ∧
    isFloat b = isFloat (Value_int 1) || isFloat (Value_int 2) ||
                match type (op0 DIV) with
                | DIV | MOD => true
                | MAX | MIN => forceFloat (mkContext "" [] [] clip8 [clip8] 1 1)
                | _ => false
                end.
Proof.
  apply binary_type_propagation. cbn [type op0].
  do 3 (apply elem_of_cons; right). apply elem_of_cons; left. reflexivity.
Defined.

Lemma land_mask (b : bool) : Z.land (mask b) 1 = if b then 1 else 0.
Proof. by destruct b. Qed.

(** X16: on integer operands the comparison tokens mean what they say:
    the pushed integer vector holds 1 where the relation holds between the
    operand below and the operand on top, and 0 elsewhere. *)
Theorem comparison_tokens (h : Helper) (rr : Reactor) (ctx : Context)
    (s : list Value) (li ri : IntV) (cl cr : bool) :
  Forall (fun '(tok, rel) =>
    ∃ op xi,
      decodeToken tok = Ok op ∧
      lowerOp h rr ctx tok op (s ++ [mkValue (VInt li) cl; mkValue (VInt ri) cr])
        = Ok (s ++ [Value_IntV xi]) ∧
      ∀ st, xi st = if (rel (li st) (ri st) : bool) then 1 else 0)
    [("<"%string, Z.ltb); (">"%string, Z.gtb); ("="%string, Z.eqb);
     (">="%string, Z.geb); ("<="%string, Z.leb)].
Proof.
  assert (Hcmp : ∀ tok c k,
            comparisonOf c = Some k → u32 c = c →
            lowerOp h rr ctx tok (opi CMP c)
              (s ++ [mkValue (VInt li) cl; mkValue (VInt ri) cr])
            = Ok (s ++ [Value_IntV (fun st => Z.land (map2 (icmp k) li ri st) 1)])).
  { intros tok c k Hk Hc.
    assert (Hty : type (opi CMP c) = CMP) by reflexivity.
    pass_checks Hty. unfold lowerCmp. rewrite LOAD2_snoc. cbn [mbind Outcome_bind].
    unfold isFloat, Value_i. cbn [v orb mbind Outcome_bind].
    change (imm_u (opi CMP c)) with (u32 c). rewrite Hc, Hk. reflexivity. }
  repeat constructor.
  - eexists _, _. split; [reflexivity|].
    split; [apply (Hcmp _ ComparisonType.LT cLT); reflexivity|].
    intros st. unfold map2, icmp. apply land_mask.
  - eexists _, _. split; [reflexivity|].
    split; [apply (Hcmp _ ComparisonType.NLE cNLE); reflexivity|].
    intros st. unfold map2, icmp. rewrite land_mask. by rewrite Z.gtb_ltb.
  - eexists _, _. split; [reflexivity|].
    split; [apply (Hcmp _ ComparisonType.EQ cEQ); reflexivity|].
    intros st. unfold map2, icmp. apply land_mask.
  - eexists _, _. split; [reflexivity|].
    split; [apply (Hcmp _ ComparisonType.NLT cNLT); reflexivity|].
    intros st. unfold map2, icmp. rewrite land_mask. by rewrite Z.geb_leb.
  - eexists _, _. split; [reflexivity|].
    split; [apply (Hcmp _ ComparisonType.LE cLE); reflexivity|].
    intros st. unfold map2, icmp. apply land_mask.
Qed.

Lemma select_mask (t f : Z) (b : bool) : select t f (mask b) = if b then t else f.
Proof.
  unfold select, mask. destruct b.
  - change (Z.lnot (-1)) with 0. by rewrite Z.land_m1_r, Z.land_0_r, Z.lor_0_r.
  - change (Z.lnot 0) with (-1). by rewrite Z.land_0_r, Z.land_m1_r, Z.lor_0_l.
Qed.

Lemma u32_wrap32 (a : Z) : u32 (wrap32 a) = a mod 2 ^ 32.
Proof.
  unfold u32, wrap32. change (2 ^ 31) with 2147483648. change (2 ^ 32) with 4294967296.
  rewrite Zminus_mod_idemp_l. f_equal. lia.
Qed.

(** X17: the ternary operator selects, lane by lane, the second operand
    where the first is greater than zero and the third elsewhere: as integers
    when both branches are integer vectors, and as the float pattern of the
    chosen branch when one of them is a float vector. *)
Theorem ternary_selects (h : Helper) (rr : Reactor) (ctx : Context) (tok : string)
    (s : list Value) (ci : IntV) (cc : bool) (t f : Value) :
  ∃ b,
    lowerOp h rr ctx tok (op0 TERNARY) (s ++ [mkValue (VInt ci) cc; t; f])
      = Ok (s ++ [b]) ∧
    match v t, v f with
    | VInt ti, VInt fi =>
        ∃ bi, v b = VInt bi ∧ ∀ st, bi st = if 0 <? ci st then ti st else fi st
    | _, _ =>
        ∃ bf, v b = VFloat bf ∧
              ∀ st, bf st = (if 0 <? ci st then ensureFloat t st
                             else ensureFloat f st) mod 2 ^ 32
    end.
Proof.
  assert (Hty : type (op0 TERNARY) = TERNARY) by reflexivity.
  pass_checks Hty. unfold lowerTernary.
  replace (s ++ [mkValue (VInt ci) cc; t; f])
    with ((s ++ [mkValue (VInt ci) cc]) ++ [t; f]) by (by rewrite <- app_assoc).
  rewrite LOAD2_snoc. cbn [mbind Outcome_bind]. rewrite LOAD1_snoc.
  cbn [mbind Outcome_bind v]. unfold isFloat, Value_i, OUT.
  assert (Hfl : ∀ st, u32 (select (wrap32 (ensureFloat t st)) (wrap32 (ensureFloat f st))
                             (CmpGT_i0 ci st))
                      = (if 0 <? ci st then ensureFloat t st else ensureFloat f st)
                        mod 2 ^ 32).
  { intros st. unfold CmpGT_i0. rewrite select_mask.
    destruct (0 <? ci st); apply u32_wrap32. }
  destruct (v t) as [ti|tf] eqn:Et, (v f) as [fi|ff] eqn:Ef;
    cbn [orb mbind Outcome_bind]; eexists; (split; [reflexivity|]); cbn [v].
  - eexists. split; [reflexivity|]. intros st. unfold CmpGT_i0. apply select_mask.
  - eexists. split; [reflexivity|]. exact Hfl.
  - eexists. split; [reflexivity|]. exact Hfl.
  - eexists. split; [reflexivity|]. exact Hfl.
Qed.

(** ** Load-constants: coordinates, frame number and properties *)

(** X18: [X] and [Y] push the column and the row of the pixel the lane
    works on, whatever block of lanes the column falls in, and [N] pushes
    the frame number found in slot 0 of the constants buffer. *)
Theorem coordinates (h : Helper) (rr : Reactor) (ctx : Context) (s : list Value) :
  ∃ opX opY opN fx fy fn,
    decodeToken "X" = Ok opX ∧ decodeToken "Y" = Ok opY ∧ decodeToken "N" = Ok opN ∧
    lowerOp h rr ctx "X" opX s = Ok (s ++ [Value_IntV fx]) ∧
    lowerOp h rr ctx "Y" opY s = Ok (s ++ [Value_IntV fy]) ∧
    lowerOp h rr ctx "N" opN s = Ok (s ++ [Value_IntV fn]) ∧
    ∀ srcs n vals c r,
      0 ≤ c < 2 ^ 31 → - 2 ^ 31 ≤ n < 2 ^ 31 →
      fx (pixelState srcs (u32 n :: vals) c r) = c ∧
      fy (pixelState srcs (u32 n :: vals) c r) = r ∧
      fn (pixelState srcs (u32 n :: vals) c r) = n.
Proof.
  assert (Hlc : ∀ tok k, u32 k = k →
            lowerOp h rr ctx tok (opi LOAD_CONST k) s
            = Ok (lowerLoadConst (opi LOAD_CONST k) s)).
  { intros tok k Hk.
    assert (Hty : type (opi LOAD_CONST k) = LOAD_CONST) by reflexivity.
    by pass_checks Hty. }
  eexists _, _, _, _, _, _.
  split; [reflexivity|]. split; [reflexivity|]. split; [reflexivity|].
  split; [rewrite Hlc by reflexivity; reflexivity|].
  split; [rewrite Hlc by reflexivity; reflexivity|].
  split; [rewrite Hlc by reflexivity; reflexivity|].
  intros srcs n vals c r Hc Hn. cbv beta.
  unfold pixelState, laneState. cbn [xvec lane x y consts].
  split; [|split].
  - unfold iadd. rewrite Z.add_comm, <- Z.div_mod by lia. apply wrap32_small. lia.
  - reflexivity.
  - change (wrap32 (u32 n) = n). unfold wrap32, u32.
    change (2 ^ 31) with 2147483648 in *. change (2 ^ 32) with 4294967296.
    rewrite Zplus_mod_idemp_l.
    rewrite Z.mod_small; lia.
Qed.

Lemma rewritten_reads_slot h rr ctx tok op k stack :
  type op = LOAD_CONST → Z.of_nat k < 2 ^ 31 - 3 →
  lowerOp h rr ctx tok (rewritten op k) stack =
    Ok (stack ++ [Value_FloatV (fun st => word st (1 + Z.of_nat k))]).
Proof.
  intros Hty Hk.
  assert (Hty' : type (rewritten op k) = LOAD_CONST) by done.
  pass_checks Hty'. unfold lowerLoadConst, OUT.
  assert (Him : imm_i (rewritten op k) = 3 + Z.of_nat k).
  { unfold imm_i, rewritten. cbn [imm]. change LoadConstType.LAST with 3.
    change (2 ^ 31) with 2147483648 in Hk.
    rewrite u32_small by (change (2 ^ 32) with 4294967296; lia).
    apply wrap32_small. change (2 ^ 31) with 2147483648. lia. }
  rewrite Him.
  change LoadConstType.N with 0. change LoadConstType.Y with 2.
  change LoadConstType.X with 1.
  replace (3 + Z.of_nat k =? 0) with false by (symmetry; apply Z.eqb_neq; lia).
  replace (3 + Z.of_nat k =? 2) with false by (symmetry; apply Z.eqb_neq; lia).
  replace (3 + Z.of_nat k =? 1) with false by (symmetry; apply Z.eqb_neq; lia).
  change (LoadConstIndex.LAST - LoadConstType.LAST) with (-2).
  do 3 f_equal. unfold Value_FloatV. do 2 f_equal.
  replace (3 + Z.of_nat k + -2) with (1 + Z.of_nat k) by lia. reflexivity.
Qed.

(** X19: the rewrite pass and the frame invoker agree on the slots: the
    property load rewritten to dense index [k] pushes a float vector that
    reads, in the buffer built for the descriptors, the value of the
    property descriptor [k] names. *)
Theorem property_load_reads_its_value (h : Helper) (rr : Reactor) (ctx : Context)
    (tok : string) (op : ExprOp) (k : nat) (stack : list Value)
    (n : Z) (src : list (gmap string VSProp)) (pas : list PropAccess)
    (pa : PropAccess) (m : gmap string VSProp) (cs : list Z) :
  type op = LOAD_CONST → Z.of_nat k < 2 ^ 31 - 3 →
  frameConsts n src pas = Ok cs →
  pas !! k = Some pa → src !! Z.to_nat (clip pa) = Some m →
  ∃ f,
    lowerOp h rr ctx tok (rewritten op k) stack = Ok (stack ++ [Value_FloatV f]) ∧
    ∀ srcs c r, f (pixelState srcs cs c r) = slotOf (m !! pa_name pa).
Proof.
  intros Hty Hk Hcs Hpa Hm.
  eexists. split; [by apply rewritten_reads_slot|].
  intros srcs c r. cbv beta. unfold word, pixelState, laneState. cbn [consts].
  replace (1 + Z.of_nat k <? 0) with false by (symmetry; apply Z.ltb_ge; lia).
  replace (Z.to_nat (1 + Z.of_nat k)) with (S k) by lia.
  unfold frameConsts in Hcs.
  assert (Hvals : ∃ vals, propValues src pas = Ok vals ∧ cs = u32 n :: vals).
  { destruct (propValues src pas) as [vals| | | | |]; cbn in Hcs; try done.
    injection Hcs as <-. eauto. }
  destruct Hvals as (vals & Hv & ->).
  assert (Hslot : vals !! k = Some (slotOf (m !! pa_name pa))).
  { clear -Hv Hpa Hm. revert k vals Hv Hpa.
    induction pas as [|p pas IH]; intros k vals Hv Hpa; [done|].
    cbn [propValues] in Hv.
    destruct (clip p <? 0); [done|].
    destruct (src !! Z.to_nat (clip p)) as [m0|] eqn:Hm0; [|done].
    destruct (propValues src pas) as [rest| | | | |]; cbn in Hv; try done.
    injection Hv as <-. destruct k as [|k]; cbn in *.
    - injection Hpa as ->. rewrite Hm in Hm0. injection Hm0 as <-.
      by rewrite propValue_slot.
    - by apply IH. }
  assert (Hslot' : (u32 n :: vals) !! S k = Some (slotOf (m !! pa_name pa)))
    by exact Hslot.
  by rewrite Hslot'.
Qed.

Lemma property_load_reads_its_value_witness :
  ∃ f,
    lowerOp noHelper noReactor (mkContext "" [] [] clip8 [clip8] 1 1) "x.p"
      (rewritten (mkOp LOAD_CONST 3 "p") 0) []
      = Ok ([] ++ [Value_FloatV f]) ∧
    ∀ srcs c r,
      f (pixelState srcs [7; 0x3f800000] c r)
      = slotOf (({[ "p"%string := PropInt [1] ]} : gmap string VSProp)
                  !! pa_name (mkPA 0 "p")).
Proof.
  apply (property_load_reads_its_value noHelper noReactor
           (mkContext "" [] [] clip8 [clip8] 1 1) "x.p" (mkOp LOAD_CONST 3 "p") 0 []
           7 [ {[ "p"%string := PropInt [1] ]} ] [mkPA 0 "p"] (mkPA 0 "p")).
  - reflexivity.
  - reflexivity.
  - vm_compute. reflexivity.
  - reflexivity.
  - reflexivity.
Defined.

(** ** The loop nest beyond the plane *)

(** X20: the routine has no tail handling: on every row of the plane it
    writes whole blocks of eight lanes, so up to seven columns past the
    width receive the value the body computes there; columns past the last
    block and rows outside the plane keep what the output held. *)
Theorem routine_writes_whole_blocks (body : State -> Z) (out : Plane)
    (srcs : Z -> Plane) (cs : list Z) (w hh c r : Z) :
  0 ≤ w → 0 ≤ hh →
  (0 ≤ r < hh → 0 ≤ c < 8 * ((w + 7) / 8) →
   procPlane (Some body) out srcs cs w hh c r = body (pixelState srcs cs c r)) ∧
  (r < 0 ∨ hh ≤ r ∨ c < 0 ∨ 8 * ((w + 7) / 8) ≤ c →
   procPlane (Some body) out srcs cs w hh c r = out c r).
Proof.
  intros Hw Hh. unfold procPlane. rewrite loopY_spec by lia.
  assert (Hblk : 8 * (c / 8) < w ↔ c < 8 * ((w + 7) / 8)).
  { pose proof (Z.div_mod c 8 ltac:(lia)). pose proof (Z.mod_pos_bound c 8 ltac:(lia)).
    pose proof (Z.div_mod (w + 7) 8 ltac:(lia)).
    pose proof (Z.mod_pos_bound (w + 7) 8 ltac:(lia)). lia. }
  split; intros; case_bool_decide; try done; exfalso; lia.
Qed.

Lemma routine_writes_whole_blocks_witness :
  (0 ≤ 0 < 1 → 0 ≤ 6 < 8 * ((4 + 7) / 8) →
   procPlane (Some body_x_2_mul) (fun _ _ => 9) (fun _ _ _ => 3) [7] 4 1 6 0
   = body_x_2_mul (pixelState (fun _ _ _ => 3) [7] 6 0)) ∧
  (0 < 0 ∨ 1 ≤ 0 ∨ 6 < 0 ∨ 8 * ((4 + 7) / 8) ≤ 6 →
   procPlane (Some body_x_2_mul) (fun _ _ => 9) (fun _ _ _ => 3) [7] 4 1 6 0 = 9).
Proof. apply routine_writes_whole_blocks; lia. Defined.

Lemma coordinates_witness :
  ∃ fx fy fn,
    lowerOp noHelper noReactor (mkContext "" [] [] clip8 [clip8] 1 1) "X"
      (opi LOAD_CONST LoadConstType.X) [] = Ok ([] ++ [Value_IntV fx]) ∧
    lowerOp noHelper noReactor (mkContext "" [] [] clip8 [clip8] 1 1) "Y"
      (opi LOAD_CONST LoadConstType.Y) [] = Ok ([] ++ [Value_IntV fy]) ∧
    lowerOp noHelper noReactor (mkContext "" [] [] clip8 [clip8] 1 1) "N"
      (opi LOAD_CONST LoadConstType.N) [] = Ok ([] ++ [Value_IntV fn]) ∧
    fx (pixelState (fun _ _ _ => 0) (u32 7 :: []) 13 2) = 13 ∧
    fy (pixelState (fun _ _ _ => 0) (u32 7 :: []) 13 2) = 2 ∧
    fn (pixelState (fun _ _ _ => 0) (u32 7 :: []) 13 2) = 7.
Proof.
  destruct (coordinates noHelper noReactor (mkContext "" [] [] clip8 [clip8] 1 1) [])
    as (opX & opY & opN & fx & fy & fn & HX & HY & HN & H1 & H2 & H3 & H).
  injection HX as <-. injection HY as <-. injection HN as <-.
  exists fx, fy, fn. split; [exact H1|]. split; [exact H2|]. split; [exact H3|].
  apply (H (fun _ _ _ => 0) 7 [] 13 2); lia.
Defined.

(** ** Stores of every integer depth *)

(** X21: for an integer output of 8 to 16 bits in its host layout, an
    integer residual value is stored clamped to the range of the bit depth,
    [0] to [2^bits - 1]. *)
Theorem integer_store_clamps (fmt : VSFormat) (ri : IntV) (cst : bool) :
  sampleType fmt = stInteger → bitsPerSample fmt ≤ 16 → hostFormat fmt →
  ∃ body,
    lowerStore fmt (mkValue (VInt ri) cst) = Ok (Some body) ∧
    ∀ st, body st = Z.min (Z.max (ri st) 0) (2 ^ bitsPerSample fmt - 1).
Proof.
  intros Hs Hb [Hbits HB]. unfold lowerStore. rewrite Hs, maxval_small by lia.
  cbn [v].
  assert (Hpow : 2 ^ 8 ≤ 2 ^ bitsPerSample fmt ≤ 2 ^ 16)
    by (split; apply Z.pow_le_mono_r; lia).
  change (2 ^ 8) with 256 in *. change (2 ^ 16) with 65536 in *.
  rewrite HB. destruct (bitsPerSample fmt <=? 8) eqn:E8.
  - apply Z.leb_le in E8. assert (bitsPerSample fmt = 8) as -> by lia.
    change (1 =? 1) with true. cbv iota. eexists. split; [reflexivity|].
    intros st. cbv beta. change (2 ^ 8 - 1) with 255. change (2 ^ 8) with 256.
    rewrite (Z.mod_small _ 65536) by lia. rewrite Z.mod_small; lia.
  - replace (bitsPerSample fmt <=? 16) with true by (symmetry; by apply Z.leb_le).
    change (2 =? 1) with false. change (2 =? 2) with true. cbv iota.
    eexists. split; [reflexivity|]. intros st. cbv beta. rewrite Z.mod_small; lia.
Qed.

Lemma integer_store_clamps_witness :
  ∃ body,
    lowerStore (mkFormat cmGray stInteger 10 2 0 0 1) (mkValue (VInt (fun _ => 5000)) false)
      = Ok (Some body) ∧
    ∀ st, body st = Z.min (Z.max 5000 0)
                      (2 ^ bitsPerSample (mkFormat cmGray stInteger 10 2 0 0 1) - 1).
Proof.
  apply (integer_store_clamps (mkFormat cmGray stInteger 10 2 0 0 1) (fun _ => 5000) false).
  - reflexivity.
  - cbn. lia.
  - unfold hostFormat. cbn. lia.
Defined.

(** ** Integer and float arithmetic agree on [x 1 +] *)

Definition plus_one_ok (a : Z) : bool :=
  RoundInt (fmin (fmax (F32.add (F32.of_Z a) (F32.of_Z 1)) (cast_float 0)) (cast_float 255))
  =? Z.min (a + 1) 255.

Lemma plus_one_checked : all_from 256 0 plus_one_ok = true.
Proof. vm_compute. reflexivity. Qed.

Definition body_x_1_add (ff : bool) : State -> Z :=
  fun st =>
    ((if ff
      then RoundInt (fmin (fmax (F32.add (F32.of_Z (load_sample 0 1 st)) (F32.of_Z 1))
                             (cast_float 0)) (cast_float 255))
      else Z.min (Z.max (iadd (load_sample 0 1 st) 1) 0) 255) mod 2 ^ 16) mod 2 ^ 8.

Lemma compile_x_1_add h rr opt :
  ∃ body,
    compileExpr h rr "x 1 +" clip8 [clip8] 1 opt
      = Ok (mkCompiled (procPlane (Some body)) []) ∧
    ∀ st, body st = body_x_1_add (Z.land opt 1 =? 0) st.
Proof.
  set (ctx := mkContext "x 1 +" ["x"; "1"; "+"]%string
                [opi MEM_LOAD 0; opf CONSTANT f32_one; op0 ADD] clip8 [clip8] 1 opt).
  assert (Hb : ∃ body, buildOneIter h rr ctx = Ok (Some body) ∧
                 ∀ st, body st = body_x_1_add (Z.land opt 1 =? 0) st).
  { unfold buildOneIter.
    change (ops ctx) with [opi MEM_LOAD 0; opf CONSTANT f32_one; op0 ADD].
    change (tokens ctx) with ["x"; "1"; "+"]%string.
    change (format (vo ctx)) with (Some gray8).
    cbn [lowerOps hd tl].
    rewrite (lowerOp_mem_load h rr ctx "x" (opi MEM_LOAD 0) [] clip8 gray8);
      [| reflexivity | by vm_compute | reflexivity | reflexivity | by left].
    cbn [mbind Outcome_bind app].
    rewrite lower_constant by reflexivity. cbn [mbind Outcome_bind app].
    change (F32.eqb (imm_f (opf CONSTANT f32_one))
              (cast_float (cast_int (imm_f (opf CONSTANT f32_one))))) with true.
    cbv iota. change (cast_int (imm_f (opf CONSTANT f32_one))) with 1.
    change (forceFloat ctx) with (Z.land opt 1 =? 0).
    assert (Hty : type (op0 ADD) = ADD) by reflexivity.
    unfold loadedValue. cbn [sampleType gray8 bytesPerSample].
    destruct (Z.land opt 1 =? 0);
      match goal with
      | |- context [lowerOp _ _ _ _ _ [?l; ?r]] => change [l; r] with ([] ++ [l; r])
      end;
      pass_checks Hty; unfold BINARYOP; rewrite LOAD2_snoc;
      cbn [mbind Outcome_bind v Value_FloatV Value_IntV Value_int app OUT];
      rewrite lowerStore_8bit by reflexivity;
      (eexists; split; [reflexivity|]); intros st;
      unfold body_x_1_add, map2, IntToFloat, map1; cbv beta iota; reflexivity. }
  destruct Hb as (body & Hb & Hpt). exists body. split; [|exact Hpt].
  rewrite (compileExpr_unfold h rr "x 1 +" clip8 [clip8] 1 opt ctx
             [opi MEM_LOAD 0; opf CONSTANT f32_one; op0 ADD] ∅ (Some body));
    [by rewrite propAccessOf_empty | reflexivity | reflexivity | exact Hb].
Qed.

(** X22: on an 8-bit clip [x 1 +] stores the sample plus one, saturated at
    255, at every pixel: with integer arithmetic and, the option cleared,
    with float arithmetic alike. *)
Theorem plus_one_both_modes (h : Helper) (rr : Reactor) (opt : Z) :
  ∃ c,
    compileExpr h rr "x 1 +" clip8 [clip8] 1 opt = Ok c ∧
    ∀ out srcs cs w hh col row,
      0 ≤ col < w → 0 ≤ row < hh → 0 ≤ srcs 0 col row < 256 →
      routine c out srcs cs w hh col row = Z.min (srcs 0 col row + 1) 255.
Proof.
  destruct (compile_x_1_add h rr opt) as (body & Hcomp & Hpt).
  eexists. split; [exact Hcomp|].
  intros out srcs cs w hh col row Hc Hr Hv. cbn [routine].
  rewrite procPlane_pixel by lia. rewrite Hpt. unfold body_x_1_add.
  rewrite load_sample_pixel. change (2 ^ (8 * 1)) with 256.
  rewrite (Z.mod_small (srcs 0 col row)) by lia.
  assert (Hres : 0 ≤ Z.min (srcs 0 col row + 1) 255 < 256) by lia.
  destruct (Z.land opt 1 =? 0).
  - pose proof (all_from_spec _ _ _ plus_one_checked (srcs 0 col row) ltac:(lia)) as Hok.
    unfold plus_one_ok in Hok. apply Z.eqb_eq in Hok. rewrite Hok.
    change (2 ^ 16) with 65536. change (2 ^ 8) with 256.
    rewrite (Z.mod_small _ 65536) by lia. by rewrite Z.mod_small by lia.
  - unfold iadd. rewrite wrap32_small by (change (2 ^ 31) with 2147483648; lia).
    replace (Z.min (Z.max (srcs 0 col row + 1) 0) 255)
      with (Z.min (srcs 0 col row + 1) 255) by lia.
    change (2 ^ 16) with 65536. change (2 ^ 8) with 256.
    rewrite (Z.mod_small _ 65536) by lia. by rewrite Z.mod_small by lia.
Qed.

Lemma plus_one_both_modes_witness :
  ∃ c,
    compileExpr noHelper noReactor "x 1 +" clip8 [clip8] 1 0 = Ok c ∧
    routine c (fun _ _ => 0) (fun _ _ _ => 255) [7] 4 1 2 0 = Z.min (255 + 1) 255.
Proof.
  destruct (plus_one_both_modes noHelper noReactor 0) as (c & Hc & H).
  exists c. split; [exact Hc|].
  apply (H (fun _ _ => 0) (fun _ _ _ => 255) [7] 4 1 2 0); lia.
Defined.

(** ** Filter creation *)

Lemma checkClip_outcome f0 i0 info :
  (checkClip f0 i0 info = Ok () ∧ isConstantFormat info = true ∧
   ∃ f, format info = Some f ∧ inputFormatRejected f = false ∧
        numPlanes f0 = numPlanes f ∧ subSamplingW f0 = subSamplingW f ∧
        subSamplingH f0 = subSamplingH f ∧
        width i0 = width info ∧ height i0 = height info) ∨
  (∃ msg, checkClip f0 i0 info = Throw msg).
Proof.
  unfold checkClip. destruct (isConstantFormat info) eqn:Ec; cbn [negb]; [|eauto].
  destruct (format info) as [f|] eqn:Ef.
  2:{ unfold isConstantFormat in Ec. rewrite Ef in Ec.
      rewrite bool_decide_eq_false_2 in Ec by (by intros [? ?]).
      by rewrite andb_false_r in Ec. }
  destruct (negb (numPlanes f0 =? numPlanes f) || _ || _ || _ || _) eqn:Ed; [eauto|].
  destruct (inputFormatRejected f) eqn:Er; [eauto|].
  left. repeat (apply orb_false_iff in Ed as [Ed ?]).
  repeat match goal with
         | H : negb (_ =? _) = false |- _ => apply negb_false_iff, Z.eqb_eq in H
         end.
  split; [done|]. split; [done|]. exists f. by repeat split.
Qed.

Lemma checkClips_outcome f0 i0 l :
  (checkClips f0 i0 l = Ok () ∧
   Forall (fun info => isConstantFormat info = true ∧
             ∃ f, format info = Some f ∧ inputFormatRejected f = false ∧
                  width i0 = width info ∧ height i0 = height info) l) ∨
  (∃ msg, checkClips f0 i0 l = Throw msg).
Proof.
  induction l as [|info l IH]; cbn [checkClips]; [left; by split|].
  destruct (checkClip_outcome f0 i0 info) as [(-> & Hc & f & Hf & Hr & _ & _ & _ & Hw & Hh) | [msg ->]];
    cbn [mbind Outcome_bind]; [|eauto].
  destruct IH as [[-> Hall] | [msg ->]]; [|eauto].
  left. split; [done|]. constructor; [|done]. split; [done|]. exists f. by repeat split.
Qed.

Lemma checkAllClips_outcome l :
  (checkAllClips l = Ok () ∧
   Forall (fun info => isConstantFormat info = true ∧
             ∃ f, format info = Some f ∧ inputFormatRejected f = false) l) ∨
  (∃ msg, checkAllClips l = Throw msg).
Proof.
  unfold checkAllClips. destruct l as [|i0 l]; [left; by split|].
  destruct (isConstantFormat i0) eqn:Ec; cbn [negb]; [|eauto].
  destruct (format i0) as [f0|] eqn:Ef.
  2:{ unfold isConstantFormat in Ec. rewrite Ef in Ec.
      rewrite bool_decide_eq_false_2 in Ec by (by intros [? ?]).
      by rewrite andb_false_r in Ec. }
  destruct (checkClips_outcome f0 i0 (i0 :: l)) as [[-> Hall] | [msg ->]]; [|eauto].
  left. split; [done|]. eapply Forall_impl; [exact Hall|].
  intros info (Hc & f & Hf & Hr & _). split; [done|]. eauto.
Qed.

(** X23: too many clips, a clip of variable format or size, or a clip
    whose sample format is refused (an integer of more than 16 bits, a float
    that is not 32 bits) makes filter creation end with an error message and
    no filter. *)
Theorem bad_input_is_an_error (h : Helper) (rr : Reactor) (api : VSAPI)
    (a : ExprArgs) :
  MAX_EXPR_INPUTS < Z.of_nat (length (arg_clips a)) ∨
  (∃ info, info ∈ arg_clips a ∧
     (isConstantFormat info = false ∨
      ∃ f, format info = Some f ∧ inputFormatRejected f = true)) →
  ∃ msg, exprCreate h rr api a = Ok (SetError ("Expr: " +:+ msg)).
Proof.
  intros Hbad. unfold exprCreate, exprCreateBody.
  destruct (MAX_EXPR_INPUTS <? Z.of_nat (length (arg_clips a))) eqn:En; [eauto|].
  apply Z.ltb_ge in En. destruct Hbad as [Hbad | (info & Hin & Hbad)]; [lia|].
  destruct (checkAllClips_outcome (arg_clips a)) as [[_ Hall] | [msg ->]];
    [|cbn [mbind Outcome_bind]; eauto].
  exfalso. rewrite Forall_forall in Hall.
  destruct (Hall info Hin) as (Hc & f & Hf & Hr).
  destruct Hbad as [Hbad | (f' & Hf' & Hr')]; congruence.
Qed.

Lemma bad_input_is_an_error_witness :
  ∃ msg,
    exprCreate noHelper noReactor noAPI
      (mkArgs [mkVideoInfo (Some (mkFormat cmGray stInteger 32 4 0 0 1)) 4 1]
         ["x"%string] None None)
    = Ok (SetError ("Expr: " +:+ msg)).
Proof.
  apply bad_input_is_an_error. right.
  exists (mkVideoInfo (Some (mkFormat cmGray stInteger 32 4 0 0 1)) 4 1).
  split; [constructor|].
  right. eexists. split; reflexivity.
Defined.

Lemma createPlanes_shape h rr out fo f0 clips optM es ps :
  createPlanes h rr out fo f0 clips optM es = Ok ps →
  Forall2 (fun e p =>
             (e ≠ ""%string ∧ p.1 = poProcess ∧
              ∃ c, p.2 = Some c ∧
                   compileExpr h rr e out clips (Z.of_nat (length clips)) optM = Ok c) ∨
             (e = ""%string ∧ p.1 = idlePlane fo f0 ∧ p.2 = None)) es ps.
Proof.
  revert ps. induction es as [|e es IH]; intros ps; cbn [createPlanes].
  - intros [= <-]. constructor.
  - destruct (createPlane h rr out fo f0 clips optM e) as [p| | | | |] eqn:Ep;
      cbn [mbind Outcome_bind]; try done.
    destruct (createPlanes h rr out fo f0 clips optM es) as [ps'| | | | |];
      cbn [mbind Outcome_bind]; try done.
    intros [= <-]. constructor; [|by apply IH].
    unfold createPlane in Ep. destruct (String.eqb e "") eqn:Ee; cbn [negb] in Ep.
    + apply String.eqb_eq in Ee. right. unfold idlePlane.
      destruct (_ && _); injection Ep as <-; done.
    + apply String.eqb_neq in Ee. left.
      destruct (compileExpr h rr e out clips (Z.of_nat (length clips)) optM)
        as [c| | | | |]; cbn [mbind Outcome_bind] in Ep; try done.
      injection Ep as <-. split; [done|]. split; [done|]. by exists c.
Qed.

Lemma idlePlane_not_process fo f0 : idlePlane fo f0 ≠ poProcess.
Proof. unfold idlePlane. by destruct (_ && _). Qed.

(** X24: in a filter that was created, there are at most 26 inputs, every
    input clip passed the format test, and the planes and the compiled
    artifacts line up: a plane is marked for processing exactly when it has
    a compiled routine; every other plane has none. *)
Theorem created_filter_invariants (h : Helper) (rr : Reactor) (api : VSAPI)
    (a : ExprArgs) (d : ExprData) :
  exprCreate h rr api a = Ok (Created d) →
  d_numInputs d = Z.of_nat (length (arg_clips a)) ∧
  d_numInputs d ≤ MAX_EXPR_INPUTS ∧
  Forall (fun info => isConstantFormat info = true ∧
            ∃ f, format info = Some f ∧ inputFormatRejected f = false) (arg_clips a) ∧
  Forall2 (fun p c => p = poProcess ↔ is_Some c) (d_plane d) (d_compiled d).
Proof.
  unfold exprCreate.
  destruct (exprCreateBody h rr api a) as [d'| | | | |] eqn:Hb; try done.
  intros [= <-]. unfold exprCreateBody in Hb.
  destruct (MAX_EXPR_INPUTS <? Z.of_nat (length (arg_clips a))) eqn:En; [done|].
  apply Z.ltb_ge in En.
  destruct (checkAllClips_outcome (arg_clips a)) as [[Hchk Hall] | [msg Hchk]];
    rewrite Hchk in Hb; cbn [mbind Outcome_bind] in Hb; [|done].
  destruct (arg_clips a) as [|i0 clips] eqn:Hclips; [done|].
  destruct (format i0) as [f0|]; [|done].
  destruct (outputInfo api i0 f0 (arg_format a)) as [out| | | | |];
    cbn [mbind Outcome_bind] in Hb; try done.
  destruct (format out) as [fo|]; [|done].
  destruct (numPlanes fo <? Z.of_nat (length (arg_expr a))); [done|].
  destruct (planeExprs (arg_expr a)) as [es| | | | |];
    cbn [mbind Outcome_bind] in Hb; try done.
  destruct (createPlanes h rr out fo f0 (i0 :: clips) (default 1 (arg_opt a))
              (take (Z.to_nat (numPlanes fo)) es)) as [ps| | | | |] eqn:Hps;
    cbn [mbind Outcome_bind] in Hb; try done.
  injection Hb as <-. cbn [d_numInputs d_plane d_compiled].
  split; [done|]. split; [done|]. split; [done|].
  apply createPlanes_shape in Hps.
  apply Forall2_fmap. clear -Hps.
  induction Hps as [|e p es' ps' Hp _ IH]; constructor; [|done].
  destruct Hp as [(_ & -> & c & -> & _) | (_ & -> & ->)].
  - split; [by eexists | done].
  - split; [by intros ?%idlePlane_not_process | by intros [? ?]].
Qed.

Lemma created_filter_invariants_witness :
  d_numInputs (mkExprData clip8 [poCopy] 1 [None])
    = Z.of_nat (length (arg_clips (mkArgs [clip8] [""%string] None None))) ∧
  d_numInputs (mkExprData clip8 [poCopy] 1 [None]) ≤ MAX_EXPR_INPUTS ∧
  Forall (fun info => isConstantFormat info = true ∧
            ∃ f, format info = Some f ∧ inputFormatRejected f = false)
         (arg_clips (mkArgs [clip8] [""%string] None None)) ∧
  Forall2 (fun p c => p = poProcess ↔ is_Some c)
          (d_plane (mkExprData clip8 [poCopy] 1 [None]))
          (d_compiled (mkExprData clip8 [poCopy] 1 [None])).
Proof.
  apply (created_filter_invariants noHelper noReactor noAPI
           (mkArgs [clip8] [""%string] None None)).
  vm_compute. reflexivity.
Defined.

(** X25: with one to three expressions given, plane [i] gets expression
    [i], and the planes past the last expression get the last one. *)
Theorem plane_expressions (l : list string) :
  l ≠ [] → (length l ≤ 3)%nat →
  ∃ es,
    planeExprs l = Ok es ∧ length es = 3%nat ∧
    ∀ i, (i < 3)%nat → es !! i = l !! (i `min` (length l - 1))%nat.
Proof.
  intros Hne Hlen.
  destruct l as [|e1 [|e2 [|e3 [|? ?]]]]; cbn in Hlen; try done; try lia.
  - exists [e1; e1; e1]. repeat split.
    intros [|[|[|i]]] Hi; try reflexivity; lia.
  - exists [e1; e2; e2]. repeat split.
    intros [|[|[|i]]] Hi; try reflexivity; lia.
  - exists [e1; e2; e3]. repeat split.
    intros [|[|[|i]]] Hi; try reflexivity; lia.
Qed.

Lemma plane_expressions_witness :
  ∃ es,
    planeExprs ["x"; "y"]%string = Ok es ∧ length es = 3%nat ∧
    ∀ i, (i < 3)%nat → es !! i = ["x"; "y"]%string !! (i `min` (length ["x"; "y"]%string - 1))%nat.
Proof. apply plane_expressions; [discriminate | cbn; lia]. Defined.
